(** * Product quantization (openbr, plugins/quantize.cpp)

    A shallow embedding of [ProductQuantizationTransform],
    [ProductQuantizationDistance] and the process-wide table registry
    [ProductQuantizationLUTs], with the properties the specification
    states about them.

    Floating-point arithmetic is kept abstract (class [Arith]); the
    OpenCV, Qt and openbr helpers the plugin calls are interfaces
    ([OpenCV], [Common], [MatCodec]).  Indices and sizes are [nat]; the
    configured subspace width [n] is a C++ [int] and is kept in [Z]. *)

From Stdlib Require Import ZArith String.
From Stdlib.Strings Require Import Byte.
From stdpp Require Import base tactics option list sorting.

Local Open Scope nat_scope.

(** ** Outcomes of a call *)

Inductive outcome (A : Type) : Type :=
| Ok (a : A)            (* the call returns *)
| Fatal (msg : string)  (* qFatal(msg): the diagnostic is printed, the process aborts *)
| Raise                 (* an error raised inside OpenCV (a failed CV_Assert) *)
| Undefined.            (* no defined behaviour: out-of-range or null access,
                           division by zero, signed overflow *)
Arguments Ok {A} a.
Arguments Fatal {A} msg.
Arguments Raise {A}.
Arguments Undefined {A}.

(** The error monad of outcomes, with stdpp's [x ← m; k] notation. *)
#[global] Instance outcome_bind : MBind outcome := fun A B f m =>
  match m with
  | Ok a => f a
  | Fatal msg => Fatal msg
  | Raise => Raise
  | Undefined => Undefined
  end.

(** Access through a raw pointer or an unchecked index: defined only
    inside the buffer.  ([QList] and [QVector] check their index by
    [Q_ASSERT] in debug builds only.) *)
Definition deref {A} (o : option A) : outcome A :=
  match o with Some a => Ok a | None => Undefined end.

(** [for (int i = lo; i < lo + len; i++) body], written over [seq lo len]. *)
Fixpoint forM {St} (idx : list nat) (body : nat → St → outcome St) (s : St) : outcome St :=
  match idx with
  | [] => Ok s
  | i :: rest => s' ← body i s; forM rest body s'
  end.

(** ** Matrices (cv::Mat) *)

Record Mat (A : Type) : Type := mkMat { rows : nat; cols : nat; data : list A }.
Arguments mkMat {A} rows cols data.
Arguments rows {A} m.
Arguments cols {A} m.
Arguments data {A} m.

(** [Mat()]: no rows, no columns, null data pointer. *)
Definition Mat_empty {A} : Mat A := mkMat 0 0 [].

(** [m.total()] *)
Definition total {A} (m : Mat A) : nat := rows m * cols m.

(** [m.row(j)]: OpenCV asserts [0 <= j < rows]. *)
Definition row {A} (m : Mat A) (j : nat) : outcome (Mat A) :=
  if decide (j < rows m)
  then Ok (mkMat 1 (cols m) (take (cols m) (drop (j * cols m) (data m))))
  else Raise.

(** [m.colRange(a, b)]: the columns [a, b) of every row.  The plugin
    calls it with [0 <= a <= b <= cols] only. *)
Definition colRange {A} (m : Mat A) (a b : nat) : Mat A :=
  mkMat (rows m) (b - a)
        (flat_map (fun r => take (b - a) (drop (r * cols m + a) (data m)))
                  (seq 0 (rows m))).

(** [p[i] = v] through a raw element pointer. *)
Definition write {A} (buf : list A) (p : nat) (v : A) : outcome (list A) :=
  if decide (p < length buf) then Ok (<[p := v]> buf) else Undefined.

(** ** Arithmetic and library interfaces *)

(** C [float] and [double] with the operations the plugin applies to them. *)
Class Arith : Type := {
  float : Type;
  double : Type;
  fzero : float;                         (* 0   *)
  fone : float;                          (* 1   *)
  fadd : float → float → float;          (* a + b *)
  fneg : float → float;                  (* -a  *)
  flog : float → float;                  (* log(a) *)
  dmax : double;                         (* std::numeric_limits<double>::max() *)
  dlt : double → double → bool;          (* a < b *)
  ddiv : double → double → double;       (* a / b *)
  dlog : double → double;                (* log(a) *)
  d2f : double → float;                  (* conversion on assignment to a float *)
  norm_L2 : list float → list float → double;  (* cv::norm(a, b, NORM_L2) *)
  indeterminate : float;                 (* content of freshly allocated memory *)
  indeterminate_uchar : byte
}.

(** The part of OpenCV's clustering the plugin relies on:
    [kmeans(data, K, labels, TermCriteria(MAX_ITER, 10, 0), 3,
    KMEANS_PP_CENTERS, centers)] gives the cluster of every row and the
    matrix of centers, or raises (fewer rows than clusters, wrong type). *)
Class OpenCV `{Arith} : Type := {
  kmeans : Mat float → nat → outcome (list nat * Mat float)
}.

(** Modelled from the spec: the helpers of openbr/core/common.h called by
    [_train] ([Common::Downsample], [Common::KernelDensityBandwidth],
    [Common::KernelDensityEstimation]), whose bodies are not part of the
    sources at hand.  The spec: "downsample each population to a fixed cap
    (256)", "estimate a bandwidth per population via a standard
    bandwidth-selection rule", "density_genuine(table[j][k], h_genuine)".
    They are value-returning functions, as their call sites use them. *)
Class Common `{Arith} : Type := {
  Downsample : list float → nat → list float;
  KernelDensityBandwidth : list float → double;
  KernelDensityEstimation : list float → float → double → double
}.

(** Modelled from the spec: the [QDataStream] operators for [cv::Mat] of
    openbr_plugin.h, not part of the sources at hand.  The spec: "a
    self-describing blob containing, per subspace, the 256 centers
    followed by the 256x256 lookup table [...] so deserialization can
    reconstruct the Registry entry unambiguously". *)
Class MatCodec `{Arith} : Type := {
  put_Mat : Mat float → list byte;
  get_Mat : list byte → option (Mat float * list byte)
}.

(** What the spec asks of these helpers. *)
Definition Downsample_caps `{Common} : Prop :=
  ∀ (vals : list float) (k : nat), length (Downsample vals k) ≤ k.

Definition MatCodec_round_trip `{MatCodec} : Prop :=
  ∀ (m : Mat float) (rest : list byte), get_Mat (put_Mat m ++ rest) = Some (m, rest).

(** ** Integers of the C++ code *)

Definition INT_MAX : Z := 2147483647.

(** Conversion of an [int] to [uchar]: the low eight bits. *)
Definition uchar_of_N (x : N) : byte :=
  default "000"%byte (Byte.of_N (x mod 256)).

Definition uchar (x : nat) : byte := uchar_of_N (N.of_nat x).

(** ** The quantizer and the registry *)

(** [ProductQuantizationTransform]: the properties [n], [distance] and
    [bayesian], and the members [index] and [centers].  [distance] is a
    [br::Distance]: its [compare] takes two templates to a [float]. *)
Record ProductQuantizationTransform `{Arith} : Type := mkPQ {
  n : Z;
  distance : Mat float → Mat float → float;
  bayesian : bool;
  index : nat;
  centers : list (Mat float)
}.

Definition set_centers `{Arith} (q : ProductQuantizationTransform)
    (cs : list (Mat float)) : ProductQuantizationTransform :=
  mkPQ _ (n q) (distance q) (bayesian q) (index q) cs.

(** [QVector<Mat> ProductQuantizationLUTs]: one [float] matrix per
    constructed quantizer, [D/n] rows of [256*256] entries once trained. *)
Abbreviation Registry := (list (Mat float)).

Section Quantize.
Context `{AR : Arith} `{CV : !OpenCV} `{CM : !Common} `{MC : !MatCodec}.

(** The constructor: [index = ProductQuantizationLUTs.size();
    ProductQuantizationLUTs.append(Mat())].  The three properties are set
    from the quantizer's description. *)
Definition construct (n0 : Z) (d : Mat float → Mat float → float) (b : bool)
    (LUTs : Registry) : ProductQuantizationTransform * Registry :=
  (mkPQ _ n0 d b (length LUTs) [], LUTs ++ [Mat_empty]).

(** A description: the three properties of one quantizer. *)
Definition description : Type := (Z * (Mat float → Mat float → float) * bool)%type.

(** Quantizers constructed one after the other. *)
Fixpoint construct_all (ds : list description) (LUTs : Registry)
    : list ProductQuantizationTransform * Registry :=
  match ds with
  | [] => ([], LUTs)
  | (n0, d, b) :: rest =>
      let '(q, LUTs1) := construct n0 d b LUTs in
      let '(qs, LUTs2) := construct_all rest LUTs1 in
      (q :: qs, LUTs2)
  end.

(** ** ProductQuantizationDistance::compare

    [a] and [b] are templates (lists of [uchar] matrices); matrix [i] of
    a template is scored against [ProductQuantizationLUTs[i]], whose row
    [j] is the table of subspace [j]. *)
Definition compare (bayesian : bool) (LUTs : Registry) (a b : list (Mat byte))
    : outcome float :=
  dist ← forM (seq 0 (length a)) (fun i dist =>
    ai ← deref (a !! i);
    let elements := total ai in
    bi ← deref (b !! i);
    lut ← deref (LUTs !! i);
    forM (seq 0 elements) (fun j dist =>
      x ← deref (data ai !! j);
      y ← deref (data bi !! j);
      let p := j * 256 * 256 + Byte.to_nat x * 256 + Byte.to_nat y in
      if decide (Z.of_nat p ≤ INT_MAX)%Z
      then v ← deref (data lut !! p); Ok (fadd dist v)
      else Undefined) dist) fzero;
  Ok (if bayesian then dist else fneg (flog (fadd dist fone))).

(** ** ProductQuantizationTransform::_train

    [lut] is a row of the registry's matrix and shares its memory: it is
    the buffer [buf] of the whole matrix with the offset [base] of the
    row, and [lut->at<float>(0, c)] is [buf[base + c]]. *)

(** [for j, k < 256: lut(0, j*256+k) = distance->compare(center.row(j), center.row(k))] *)
Definition fill_raw (d : Mat float → Mat float → float) (center : Mat float)
    (base : nat) (buf : list float) : outcome (list float) :=
  forM (seq 0 256) (fun j buf =>
    forM (seq 0 256) (fun k buf =>
      cj ← row center j;
      ck ← row center k;
      write buf (base + (j * 256 + k)) (d cj ck)) buf) buf.

(** The scores of every pair [i < j] of samples, split by the labels. *)
Definition collect_scores (indicies : list nat) (labels : list Z)
    (base : nat) (buf : list float) : outcome (list float * list float) :=
  forM (seq 0 (length indicies)) (fun i s =>
    forM (seq (i + 1) (length indicies - (i + 1))) (fun j '(genuineScores, impostorScores) =>
      ii ← deref (indicies !! i);
      ij ← deref (indicies !! j);
      score ← deref (buf !! (base + (ii * 256 + ij)));
      li ← deref (labels !! i);
      lj ← deref (labels !! j);
      Ok (if decide (li = lj)
          then (genuineScores ++ [score], impostorScores)
          else (genuineScores, impostorScores ++ [score]))) s) ([], []).

(** [for j, k < 256: lut(0, j*256+k) = log(KDE(genuine, lut(0, j*256+k), hGenuine)
                                         / KDE(impostor, lut(0, j*256+k), hImpostor))] *)
Definition calibrate (genuineScores impostorScores : list float)
    (hGenuine hImpostor : double) (base : nat) (buf : list float)
    : outcome (list float) :=
  forM (seq 0 256) (fun j buf =>
    forM (seq 0 256) (fun k buf =>
      x ← deref (buf !! (base + (j * 256 + k)));
      write buf (base + (j * 256 + k))
        (d2f (dlog (ddiv (KernelDensityEstimation genuineScores x hGenuine)
                         (KernelDensityEstimation impostorScores x hImpostor))))) buf) buf.

Definition _train (q : ProductQuantizationTransform) (data : Mat float)
    (labels : list Z) (base : nat) (buf : list float)
    : outcome (list float * Mat float) :=
  '(clusterLabels, center) ← kmeans data 256;
  buf ← fill_raw (distance q) center base buf;
  if negb (bayesian q) then Ok (buf, center) else
  let indicies := clusterLabels in
  (* impostorScores.reserve(data.rows*data.rows/2) *)
  if decide (Z.of_nat (rows data * rows data) ≤ INT_MAX)%Z then
    '(genuineScores, impostorScores) ← collect_scores indicies labels base buf;
    let genuineScores := Downsample genuineScores 256 in
    let impostorScores := Downsample impostorScores 256 in
    let hGenuine := KernelDensityBandwidth genuineScores in
    let hImpostor := KernelDensityBandwidth impostorScores in
    buf ← calibrate genuineScores impostorScores hGenuine hImpostor base buf;
    Ok (buf, center)
  else Undefined.

(** ** ProductQuantizationTransform::train

    [data] is the matrix of the training templates, one row each, and
    [labels] their class labels.  The subspaces are trained one after the
    other (the path taken when [Globals->parallelism] is off; with it on,
    the same calls run on the same disjoint rows). *)
Definition train_loop (q : ProductQuantizationTransform) (data : Mat float)
    (labels : list Z) (lutrows : nat) (s : list float * list (Mat float))
    : outcome (list float * list (Mat float)) :=
  forM (seq 0 lutrows) (fun i '(buf, cs) =>
    '(buf', c) ← _train q (colRange data (i * Z.to_nat (n q)) ((i + 1) * Z.to_nat (n q)))
                   labels (i * (256 * 256)) buf;
    Ok (buf', <[i := c]> cs)) s.

Definition train (q : ProductQuantizationTransform) (LUTs : Registry)
    (data : Mat float) (labels : list Z)
    : outcome (ProductQuantizationTransform * Registry) :=
  if decide (n q = 0)%Z then Undefined                       (* data.cols % 0 *)
  else if decide (Z.rem (Z.of_nat (cols data)) (n q) ≠ 0)%Z
  then Fatal "Expected dimensionality to be divisible by n."
  else if decide (index q < length LUTs) then                (* ProductQuantizationLUTs[index] *)
    let r := Z.quot (Z.of_nat (cols data)) (n q) in
    if decide (r < 0)%Z then Raise                           (* Mat(data.cols/n, 256*256, CV_32FC1) *)
    else
      let lutrows := Z.to_nat r in
      '(buf, cs) ← train_loop q data labels lutrows
                     (replicate (lutrows * (256 * 256)) indeterminate,
                      centers q ++ replicate lutrows Mat_empty);
      Ok (set_centers q cs, <[index q := mkMat lutrows (256 * 256) buf]> LUTs)
  else Undefined.

(** ** ProductQuantizationTransform::getIndex and project *)

(** [norm(m, c, NORM_L2)]: OpenCV asserts that the two sizes agree. *)
Definition norm (m c : Mat float) : outcome double :=
  if decide (rows m = rows c ∧ cols m = cols c)
  then Ok (norm_L2 (data m) (data c)) else Raise.

Definition getIndex (m center : Mat float) : outcome nat :=
  '(bestIndex, bestDistance) ← forM (seq 0 256) (fun j '(bestIndex, bestDistance) =>
    cj ← row center j;
    dist ← norm m cj;
    Ok (if dlt dist bestDistance then (j, dist) else (bestIndex, bestDistance)))
    (0, dmax);
  Ok bestIndex.

(** [Mat::reshape(1, 1)] of a one-channel matrix: one row holding all the
    elements.  A matrix that has one row already is returned as it is;
    any other matrix is given one row of [total] columns, which OpenCV
    refuses ("Bad new number of rows") when the matrix has no element.
    The matrices of this model are continuous, so the error OpenCV has
    for a matrix that is not does not arise. *)
Definition reshape_1_1 (m : Mat float) : outcome (Mat float) :=
  if decide (rows m = 1) then Ok m                  (* new_rows == rows *)
  else if decide (total m = 0) then Raise           (* (unsigned)new_rows > (unsigned)total_size *)
  else Ok (mkMat 1 (total m) (data m)).

(** [src] is the matrix of the template to encode. *)
Definition project (q : ProductQuantizationTransform) (src : Mat float)
    : outcome (Mat byte) :=
  m ← reshape_1_1 src;                                       (* src.m().reshape(1, 1) *)
  if decide (n q = 0)%Z then Undefined                       (* m.cols / 0 *)
  else
    let len := Z.quot (Z.of_nat (cols m)) (n q) in
    if decide (len < 0)%Z then Raise                         (* Mat(1, m.cols/n, CV_8UC1) *)
    else
      code ← forM (seq 0 (Z.to_nat len)) (fun i code =>
        c ← deref (centers q !! i);
        b ← getIndex (colRange m (i * Z.to_nat (n q)) ((i + 1) * Z.to_nat (n q))) c;
        write code i (uchar b)) (replicate (Z.to_nat len) indeterminate_uchar);
      Ok (mkMat 1 (Z.to_nat len) code).

(** ** ProductQuantizationTransform::store and load *)

(** [quint32] in a [QDataStream]: four bytes, most significant first. *)
Definition put_u32 (x : N) : list byte :=
  [uchar_of_N (x / 16777216); uchar_of_N (x / 65536); uchar_of_N (x / 256); uchar_of_N x].

Definition get_u32 (s : list byte) : option (N * list byte) :=
  match s with
  | b3 :: b2 :: b1 :: b0 :: rest =>
      Some (Byte.to_N b3 * 16777216 + Byte.to_N b2 * 65536
            + Byte.to_N b1 * 256 + Byte.to_N b0, rest)%N
  | _ => None
  end.

(** Qt's operators for [QList<T>]: the number of elements as a [quint32],
    then the elements in order; reading replaces the list. *)
Fixpoint put_Mats (l : list (Mat float)) : list byte :=
  match l with
  | [] => []
  | m :: rest => put_Mat m ++ put_Mats rest
  end.

Definition put_QList (l : list (Mat float)) : list byte :=
  put_u32 (N.of_nat (length l)) ++ put_Mats l.

Fixpoint get_Mats (c : nat) (s : list byte) : option (list (Mat float) * list byte) :=
  match c with
  | 0 => Some ([], s)
  | S c' =>
      match get_Mat s with
      | Some (m, s1) =>
          match get_Mats c' s1 with
          | Some (l, s2) => Some (m :: l, s2)
          | None => None
          end
      | None => None
      end
  end.

Definition get_QList (s : list byte) : option (list (Mat float) * list byte) :=
  match get_u32 s with
  | Some (c, s1) => get_Mats (N.to_nat c) s1
  | None => None
  end.

(** [stream << centers << ProductQuantizationLUTs[index]] *)
Definition store (q : ProductQuantizationTransform) (LUTs : Registry)
    : outcome (list byte) :=
  lut ← deref (LUTs !! index q);
  Ok (put_QList (centers q) ++ put_Mat lut).

(** [stream >> centers >> ProductQuantizationLUTs[index]].  What a stream
    that does not hold this layout leaves behind is not specified here. *)
Definition load (q : ProductQuantizationTransform) (LUTs : Registry)
    (stream : list byte)
    : outcome (ProductQuantizationTransform * Registry * list byte) :=
  '(cs, s1) ← deref (get_QList stream);
  '(lut, s2) ← deref (get_Mat s1);
  if decide (index q < length LUTs)
  then Ok (set_centers q cs, <[index q := lut]> LUTs, s2)
  else Undefined.

End Quantize.

(** ** Notions used to state the properties *)

(** A call that does not abort with a diagnostic. *)
Definition no_diagnostic {A} (o : outcome A) : Prop := ∀ msg, o ≠ Fatal msg.

(** The state of the nested loops over [j, k < 256] that rewrite the row
    at offset [base] in place, when they reach entry [(j, k)]: the
    entries before it hold [h] of their old value, the others are as
    they were. *)
Definition region_inv {A} (h : nat → nat → A → A) (base : nat) (buf0 : list A)
    (j k : nat) (buf : list A) : Prop :=
  length buf = length buf0
  ∧ (∀ p, p < base ∨ base + 256 * 256 ≤ p → buf !! p = buf0 !! p)
  ∧ (∀ j' k', j' < 256 → k' < 256 →
       buf !! (base + (j' * 256 + k')) =
         if decide (j' < j ∨ (j' = j ∧ k' < k))
         then h j' k' <$> buf0 !! (base + (j' * 256 + k'))
         else buf0 !! (base + (j' * 256 + k'))).

Section Notions.
Context `{AR : Arith} `{CV : !OpenCV} `{CM : !Common}.

(** Row [j] of a matrix of centers: center [j] of the codebook. *)
Definition center_row (c : Mat float) (j : nat) : Mat float :=
  mkMat 1 (cols c) (take (cols c) (drop (j * cols c) (data c))).

(** The table that the spec asks for: [table[j][k] = distance(centers[j], centers[k])]. *)
Definition raw_table (d : Mat float → Mat float → float) (c : Mat float)
    (j k : nat) : float :=
  d (center_row c j) (center_row c k).

(** The score of the pair of samples [i], [j], when it belongs to the
    population asked for ([same = true]: genuine, both samples of one
    class; [same = false]: impostor). *)
Definition pair_score (tbl : nat → nat → float) (indicies : list nat)
    (labels : list Z) (same : bool) (i j : nat) : list float :=
  match indicies !! i, indicies !! j, labels !! i, labels !! j with
  | Some a, Some b, Some li, Some lj =>
      if decide (bool_decide (li = lj) = same) then [tbl a b] else []
  | _, _, _, _ => []
  end.

(** A score population: the scores of all pairs [i < j] of that kind. *)
Definition population (tbl : nat → nat → float) (indicies : list nat)
    (labels : list Z) (same : bool) : list float :=
  flat_map (fun i => flat_map (pair_score tbl indicies labels same i)
                       (seq (i + 1) (length indicies - (i + 1))))
           (seq 0 (length indicies)).

(** The calibrated value of a raw score [x]: the log-likelihood ratio of
    the two density estimates over the downsampled populations. *)
Definition llr (genuine impostor : list float) (x : float) : float :=
  let g := Downsample genuine 256 in
  let i := Downsample impostor 256 in
  d2f (dlog (ddiv (KernelDensityEstimation g x (KernelDensityBandwidth g))
                  (KernelDensityEstimation i x (KernelDensityBandwidth i)))).

(** Subspace [i] of the training matrix: the columns [i*n, (i+1)*n). *)
Definition subspace (q : ProductQuantizationTransform) (data : Mat float)
    (i : nat) : Mat float :=
  colRange data (i * Z.to_nat (n q)) ((i + 1) * Z.to_nat (n q)).

(** The number of subspaces, [D/n]. *)
Definition subspaces (q : ProductQuantizationTransform) (data : Mat float) : nat :=
  Z.to_nat (Z.quot (Z.of_nat (cols data)) (n q)).

(** The codebook and the assignment that clustering gives for subspace [i]. *)
Definition codebook (q : ProductQuantizationTransform) (data : Mat float)
    (i : nat) : Mat float :=
  match kmeans (subspace q data i) 256 with
  | Ok (_, c) => c
  | _ => Mat_empty
  end.

Definition assignment (q : ProductQuantizationTransform) (data : Mat float)
    (i : nat) : list nat :=
  match kmeans (subspace q data i) 256 with
  | Ok (lbl, _) => lbl
  | _ => []
  end.

(** The entry [(j, k)] that training leaves in the table of a subspace
    clustered into the centers [c] with the assignment [lbl]. *)
Definition trained_entry (q : ProductQuantizationTransform) (labels : list Z)
    (lbl : list nat) (c : Mat float) (j k : nat) : float :=
  let tbl := raw_table (distance q) c in
  if bayesian q
  then llr (population tbl lbl labels true) (population tbl lbl labels false) (tbl j k)
  else tbl j k.

(** The entry that [compare] reads for subspace [j] of two codes:
    [table_j[codeA[j]][codeB[j]]] in the matrix [lut] of all tables. *)
Definition table_entry (lut : Mat float) (codeA codeB : list byte) (j : nat) : float :=
  default fzero
    (data lut !! (j * 256 * 256
                  + Byte.to_nat (default "000"%byte (codeA !! j)) * 256
                  + Byte.to_nat (default "000"%byte (codeB !! j)))).

(** The Euclidean distance from the vector [m] to center [j] of [c]. *)
Definition center_distance (m c : Mat float) (j : nat) : double :=
  norm_L2 (data m) (data (center_row c j)).

(** One step of the linear scan for the nearest center, and the scan. *)
Definition nearer (d : nat → double) (s : nat * double) (j : nat) : nat * double :=
  if dlt (d j) s.2 then (j, d j) else s.

Definition scan (d : nat → double) (idx : list nat) : nat * double :=
  foldl (nearer d) (0, dmax) idx.

(** The state of the scan after the indices [seen]: no distance seen is
    below the best one, which is the initial bound or the distance of
    the best index. *)
Definition scanned (d : nat → double) (seen : list nat) (s : nat * double) : Prop :=
  (∀ k, k ∈ seen → dlt (d k) s.2 = false)
  ∧ ((s = (0, dmax)) ∨ (s.1 ∈ seen ∧ s.2 = d s.1)).

(** The vector to encode, as one row; subspace [i] of it. *)
Definition as_row (src : Mat float) : Mat float := mkMat 1 (total src) (data src).

Definition subvector (q : ProductQuantizationTransform) (src : Mat float)
    (i : nat) : Mat float :=
  colRange (as_row src) (i * Z.to_nat (n q)) ((i + 1) * Z.to_nat (n q)).

(** The length of the code of a vector of dimension [D]: [D/n]. *)
Definition code_length (q : ProductQuantizationTransform) (D : nat) : nat :=
  Z.to_nat (Z.quot (Z.of_nat D) (n q)).

(** A quantizer trained (or loaded) for vectors of dimension [D]: it
    holds, for each of the [D/n] subspaces, a codebook of 256 centers of
    length [n]. *)
Definition trained (q : ProductQuantizationTransform) (D : nat) : Prop :=
  ∀ i, i < code_length q D →
    ∃ c, centers q !! i = Some c ∧ rows c = 256 ∧ cols c = Z.to_nat (n q).

(** The same quantizer with another base distance configured. *)
Definition set_distance (q : ProductQuantizationTransform)
    (d : Mat float → Mat float → float) : ProductQuantizationTransform :=
  mkPQ _ (n q) d (bayesian q) (index q) (centers q).

(** What a call of [_train] on a row of a buffer of [L] entries does:
    it returns the centers [c], fills the row at [base] with [e] and
    leaves the rest of the buffer alone. *)
Definition trains_to (q : ProductQuantizationTransform) (data : Mat float)
    (labels : list Z) (L base : nat) (c : Mat float) (e : nat → nat → float) : Prop :=
  ∀ buf, length buf = L →
    ∃ buf', _train q data labels base buf = Ok (buf', c)
      ∧ length buf' = L
      ∧ (∀ p, p < base ∨ base + 256 * 256 ≤ p → buf' !! p = buf !! p)
      ∧ (∀ j k, j < 256 → k < 256 → buf' !! (base + (j * 256 + k)) = Some (e j k)).

End Notions.

(** ** A sample instance

    An executable instance of the interfaces, used to run the model on
    sample inputs.  Values are integers, which is exact on inputs that
    keep every intermediate value integral; [Z.log2] and [Z.div] stand
    for the logarithm and the division. *)
Module Sample.

Definition sq_dist (a b : list Z) : Z :=
  foldr Z.add 0%Z (zip_with (fun x y => (x - y) * (x - y))%Z a b).

Definition arith : Arith := {|
  float := Z;
  double := Z;
  fzero := 0%Z;
  fone := 1%Z;
  fadd := Z.add;
  fneg := Z.opp;
  flog := Z.log2;
  dmax := (2 ^ 1024 - 2 ^ 971)%Z;
  dlt := Z.ltb;
  ddiv := Z.div;
  dlog := Z.log2;
  d2f := fun x => x;
  norm_L2 := fun a b => Z.sqrt (sq_dist a b);
  indeterminate := 0%Z;
  indeterminate_uchar := "000"%byte
|}.

(** The Euclidean and the city-block distance between two matrices. *)
Definition L2 (a b : Mat Z) : Z := Z.sqrt (sq_dist (data a) (data b)).

Definition L1 (a b : Mat Z) : Z :=
  foldr Z.add 0%Z (zip_with (fun x y => Z.abs (x - y)) (data a) (data b)).

(** Clustering: the first [K] rows are the centers, and every row is
    assigned to the nearest of them. *)
Definition rows_of (m : Mat Z) : list (list Z) :=
  map (fun r => take (cols m) (drop (r * cols m) (data m))) (seq 0 (rows m)).

Fixpoint argmin (x : list Z) (cs : list (list Z)) (j best : nat) (bestd : Z) : nat :=
  match cs with
  | [] => best
  | c :: rest =>
      if (sq_dist x c <? bestd)%Z
      then argmin x rest (S j) j (sq_dist x c)
      else argmin x rest (S j) best bestd
  end.

Definition nearest (cs : list (list Z)) (x : list Z) : nat :=
  match cs with
  | [] => 0
  | c :: rest => argmin x rest 1 0 (sq_dist x c)
  end.

Definition first_rows (m : Mat Z) (K : nat) : outcome (list nat * Mat Z) :=
  if decide (K ≤ rows m)
  then Ok (map (nearest (take K (rows_of m))) (rows_of m),
           mkMat K (cols m) (take (K * cols m) (data m)))
  else Raise.

Definition opencv : @OpenCV arith := Build_OpenCV arith first_rows.

(** Downsampling to evenly spaced order statistics, a spread-based
    bandwidth and a triangular kernel. *)
Definition evenly_spaced (vals : list Z) (k : nat) : list Z :=
  let sorted := merge_sort Z.le vals in
  if decide (length sorted ≤ k) then sorted
  else map (fun i => default 0%Z (sorted !! (i * (length sorted - 1) / (k - 1)))) (seq 0 k).

Definition spread_bandwidth (vals : list Z) : Z :=
  (1 + (foldr Z.max 0 vals - foldr Z.min 0 vals) / (1 + Z.of_nat (length vals)))%Z.

Definition triangular_density (vals : list Z) (x h : Z) : Z :=
  (foldr Z.add 0 (map (fun v => Z.max 0 (h - Z.abs (v - x))) vals)
     / (Z.of_nat (length vals) * h))%Z.

Definition common : @Common arith :=
  Build_Common arith evenly_spaced spread_bandwidth triangular_density.

(** A stream format for matrices: numbers in unary, integers with a sign
    byte; a matrix is its two sizes, the length of its data and the data. *)
Definition put_nat (k : nat) : list byte := replicate k "001"%byte ++ ["000"%byte].

Fixpoint get_nat (s : list byte) : option (nat * list byte) :=
  match s with
  | "000"%byte :: rest => Some (0, rest)
  | "001"%byte :: rest =>
      match get_nat rest with
      | Some (k, rest') => Some (S k, rest')
      | None => None
      end
  | _ => None
  end.

Definition put_Z (z : Z) : list byte :=
  (if (z <? 0)%Z then "001"%byte else "000"%byte) :: put_nat (Z.abs_nat z).

Definition get_Z (s : list byte) : option (Z * list byte) :=
  match s with
  | sign :: rest =>
      match get_nat rest with
      | Some (k, rest') =>
          Some (match sign with "001"%byte => (- Z.of_nat k)%Z | _ => Z.of_nat k end, rest')
      | None => None
      end
  | [] => None
  end.

Fixpoint put_Zs (l : list Z) : list byte :=
  match l with
  | [] => []
  | z :: rest => put_Z z ++ put_Zs rest
  end.

Fixpoint get_Zs (c : nat) (s : list byte) : option (list Z * list byte) :=
  match c with
  | 0 => Some ([], s)
  | S c' =>
      match get_Z s with
      | Some (z, s1) =>
          match get_Zs c' s1 with
          | Some (l, s2) => Some (z :: l, s2)
          | None => None
          end
      | None => None
      end
  end.

Definition put_matrix (m : Mat Z) : list byte :=
  put_nat (rows m) ++ put_nat (cols m) ++ put_nat (length (data m)) ++ put_Zs (data m).

Definition get_matrix (s : list byte) : option (Mat Z * list byte) :=
  match get_nat s with
  | Some (r, s1) =>
      match get_nat s1 with
      | Some (c, s2) =>
          match get_nat s2 with
          | Some (len, s3) =>
              match get_Zs len s3 with
              | Some (d, s4) => Some (mkMat r c d, s4)
              | None => None
              end
          | None => None
          end
      | None => None
      end
  | None => None
  end.

Definition codec : @MatCodec arith := Build_MatCodec arith put_matrix get_matrix.

(** A training set: 256 samples of dimension 4 in two classes, and the
    same samples all in one class. *)
Definition samples : Mat Z :=
  mkMat 256 4 (flat_map (fun r => [Z.of_nat r; Z.of_nat (r mod 2); 0; Z.of_nat (r / 2)]%Z)
                        (seq 0 256)).

Definition two_classes : list Z := map (fun r => Z.of_nat (r mod 2)) (seq 0 256).

Definition one_class : list Z := replicate 256 7%Z.

(** A quantizer for vectors of dimension 2, with the city-block distance
    configured: center 0 is (3, 4), center 1 is (0, 6), the others are
    (30, 40).  The vector to encode is the origin. *)
Definition centers0 : Mat Z :=
  mkMat 256 2 ([3; 4; 0; 6] ++ flat_map (fun _ => [30; 40]) (seq 2 254))%Z.

Definition coder : @ProductQuantizationTransform arith :=
  mkPQ arith 2%Z L1 false 0 [centers0].

Definition origin : Mat Z := mkMat 1 2 [0; 0]%Z.

(** The first quantizer of a process, as constructed, with subspace width
    2, the Euclidean distance and no calibration; and with calibration. *)
Definition fresh : @ProductQuantizationTransform arith * list (Mat Z) :=
  @construct arith 2%Z L2 false [].

Definition fresh_bayesian : @ProductQuantizationTransform arith * list (Mat Z) :=
  @construct arith 2%Z L2 true [].

End Sample.

(** ** The other transforms of the file

    [BinarizeTransform] and [PackTransform] test the element type of
    their input, so a matrix comes with its type here. *)

(** A matrix with its element type, as [m.type()] tells it. *)
Inductive Matrix `{Arith} : Type :=
| CV_8UC1 (m : Mat byte)
| CV_32FC1 (m : Mat float)
| CV_other (r c : nat).

(** [x > 0] on a [float]. *)
Class Positive `{Arith} : Type := {
  fpos : float → bool
}.

Module PackTransform.
Section Pack.
Context `{AR : Arith}.

(** [((x >> 4) << 4) + ((y >> 4) << 0)], stored in a [uchar]. *)
Definition pack (x y : byte) : byte :=
  uchar_of_N (N.shiftl (N.shiftr (Byte.to_N x) 4) 4
              + N.shiftl (N.shiftr (Byte.to_N y) 4) 0).

Definition project (src : Matrix) : outcome (Mat byte) :=
  match src with
  | CV_8UC1 m =>
      if decide (cols m mod 2 ≠ 0) then Fatal "Invalid template format."
      else
        buf ← forM (seq 0 (rows m)) (fun i buf =>
                forM (seq 0 (cols m / 2)) (fun j buf =>
                  x ← deref (data m !! (i * cols m + (2 * j + 0)));
                  y ← deref (data m !! (i * cols m + (2 * j + 1)));
                  write buf (i * (cols m / 2) + j) (pack x y)) buf)
              (replicate (rows m * (cols m / 2)) indeterminate_uchar);
        Ok (mkMat (rows m) (cols m / 2) buf)
  | _ => Fatal "Invalid template format."
  end.

End Pack.
End PackTransform.

Module BinarizeTransform.
Section Binarize.
Context `{AR : Arith} `{PS : !Positive}.

(** [(b0 << 0) + (b1 << 1) + ... + (b7 << 7)], stored in a [uchar]. *)
Definition bits (b0 b1 b2 b3 b4 b5 b6 b7 : bool) : byte :=
  uchar_of_N (N.shiftl (N.b2n b0) 0 + N.shiftl (N.b2n b1) 1
              + N.shiftl (N.b2n b2) 2 + N.shiftl (N.b2n b3) 3
              + N.shiftl (N.b2n b4) 4 + N.shiftl (N.b2n b5) 5
              + N.shiftl (N.b2n b6) 6 + N.shiftl (N.b2n b7) 7).

(** The inner loop is [for (j = 0; j < m.cols - 7; j += 8)]: [j] takes
    the values [8*t] for [t < m.cols/8].  The byte is written to
    [n.at<uchar>(i, j)], column [j] of a row of [m.cols/8] bytes. *)
Definition project (src : Matrix) : outcome (Mat byte) :=
  match src with
  | CV_32FC1 m =>
      if decide (cols m mod 8 ≠ 0)
      then Fatal "Expected CV_32FC1 matrix with a multiple of 8 columns."
      else
        buf ← forM (seq 0 (rows m)) (fun i buf =>
                forM (map (fun t => 8 * t) (seq 0 (cols m / 8))) (fun j buf =>
                  v0 ← deref (data m !! (i * cols m + (j + 0)));
                  v1 ← deref (data m !! (i * cols m + (j + 1)));
                  v2 ← deref (data m !! (i * cols m + (j + 2)));
                  v3 ← deref (data m !! (i * cols m + (j + 3)));
                  v4 ← deref (data m !! (i * cols m + (j + 4)));
                  v5 ← deref (data m !! (i * cols m + (j + 5)));
                  v6 ← deref (data m !! (i * cols m + (j + 6)));
                  v7 ← deref (data m !! (i * cols m + (j + 7)));
                  write buf (i * (cols m / 8) + j)
                    (bits (fpos v0) (fpos v1) (fpos v2) (fpos v3)
                          (fpos v4) (fpos v5) (fpos v6) (fpos v7))) buf)
              (replicate (rows m * (cols m / 8)) indeterminate_uchar);
        Ok (mkMat (rows m) (cols m / 8) buf)
  | _ => Fatal "Expected CV_32FC1 matrix with a multiple of 8 columns."
  end.

End Binarize.
End BinarizeTransform.

(** ** Further notions *)

(** A call that returns, and a call that fails in no other way than by
    undefined behaviour. *)
Definition returns {A} (o : outcome A) : Prop := ∃ a, o = Ok a.

Definition returns_or_undefined {A} (o : outcome A) : Prop :=
  o = Undefined ∨ returns o.

(** Two buffers of one length that agree outside the row at [base]. *)
Definition same_outside (base : nat) {A} (buf buf' : list A) : Prop :=
  length buf' = length buf
  ∧ ∀ p, p < base ∨ base + 256 * 256 ≤ p → buf' !! p = buf !! p.

(** The state of the scan after the indices [seen], when ties matter:
    either nothing was below the initial bound, or the best index splits
    the indices seen into those before it, all strictly farther, and
    those after it, none nearer. *)
Definition first_least `{Arith} (d : nat → double) (seen : list nat)
    (s : nat * double) : Prop :=
  (s = (0, dmax) ∧ ∀ k, k ∈ seen → dlt (d k) dmax = false)
  ∨ (∃ pre post, seen = pre ++ s.1 :: post
       ∧ s.2 = d s.1
       ∧ (∀ k, k ∈ pre → dlt (d s.1) (d k) = true)
       ∧ (∀ k, k ∈ post → dlt (d k) (d s.1) = false)).

(** A table whose entries do not depend on the order of the two bytes. *)
Definition symmetric_table `{Arith} (lut : Mat float) (subspaces : nat) : Prop :=
  ∀ i x y, i < subspaces → x < 256 → y < 256 →
    data lut !! (i * (256 * 256) + (x * 256 + y))
    = data lut !! (i * (256 * 256) + (y * 256 + x)).

(** The sample instance: a value is positive when it is above zero. *)
Definition sample_positive : @Positive Sample.arith :=
  Build_Positive Sample.arith (Z.ltb 0).

(** The sample arithmetic with every comparison of distances false, as
    it is when the distances are NaN. *)
Definition sample_unordered : Arith := {|
  float := Z;
  double := Z;
  fzero := 0%Z;
  fone := 1%Z;
  fadd := Z.add;
  fneg := Z.opp;
  flog := Z.log2;
  dmax := (2 ^ 1024 - 2 ^ 971)%Z;
  dlt := fun _ _ => false;
  ddiv := Z.div;
  dlog := Z.log2;
  d2f := fun x => x;
  norm_L2 := fun a b => Z.sqrt (Sample.sq_dist a b);
  indeterminate := 0%Z;
  indeterminate_uchar := "000"%byte
|}.

(** Two quantizers in one process: the second one, of identity 1, holds
    the sample codebook.  A table with one value in all its 65536
    entries stands for the table of one subspace, and a matrix of one
    byte for a code. *)
Definition sample_second : @ProductQuantizationTransform Sample.arith :=
  mkPQ Sample.arith 2%Z Sample.L2 false 1 [Sample.centers0].

Definition sample_table (v : Z) : Mat Z :=
  mkMat 1 (256 * 256) (replicate (256 * 256) v).

Definition sample_code (b : byte) : Mat byte := mkMat 1 1 [b].

(** The sample arithmetic with a NaN among the doubles, [None]: every
    comparison with it is false, and it is what a division by zero and
    the logarithm of a number that is not positive give. *)
Definition sample_with_nan : Arith := {|
  float := Z;
  double := option Z;
  fzero := 0%Z;
  fone := 1%Z;
  fadd := Z.add;
  fneg := Z.opp;
  flog := Z.log2;
  dmax := Some (2 ^ 1024 - 2 ^ 971)%Z;
  dlt := fun x y =>
    match x, y with
    | Some a, Some b => (a <? b)%Z
    | _, _ => false
    end;
  ddiv := fun x y =>
    match x, y with
    | Some a, Some b => if (b =? 0)%Z then None else Some (a / b)%Z
    | _, _ => None
    end;
  dlog := fun x =>
    match x with
    | Some a => if (0 <? a)%Z then Some (Z.log2 a) else None
    | None => None
    end;
  d2f := fun x => default 0%Z x;
  norm_L2 := fun a b => Some (Z.sqrt (Sample.sq_dist a b));
  indeterminate := 0%Z;
  indeterminate_uchar := "000"%byte
|}.

(** * Properties *)

(** ** Loops *)

(** One step of the error monad, without unrolling the loops. *)
Ltac ostep := cbn [mbind outcome_bind negb deref].

(** A loop whose body keeps an invariant, and returns while it holds, returns. *)
Lemma forM_inv {St} (I : nat → St → Prop) (body : nat → St → outcome St) (len lo : nat) (s : St) :
  I lo s →
  (∀ i s, lo ≤ i < lo + len → I i s → ∃ s', body i s = Ok s' ∧ I (i + 1) s') →
  ∃ s', forM (seq lo len) body s = Ok s' ∧ I (lo + len) s'.
Proof.
  revert lo s. induction len as [|len IH]; intros lo s HI Hstep; simpl.
  - exists s. split; [done|]. by replace (lo + 0) with lo by lia.
  - destruct (Hstep lo s ltac:(lia) HI) as (s1 & Hb & HI1).
    rewrite Hb. simpl.
    replace (lo + S len) with (S lo + len) by lia.
    apply IH.
    + by replace (S lo) with (lo + 1) by lia.
    + intros i s0 Hi. apply Hstep. lia.
Qed.

(** A loop whose body never aborts with a diagnostic never does either. *)
Lemma forM_not_Fatal {St} (body : nat → St → outcome St) (idx : list nat) (s : St) msg :
  (∀ i s, body i s ≠ Fatal msg) → forM idx body s ≠ Fatal msg.
Proof.
  intros Hb. revert s. induction idx as [|i idx IH]; intros s; simpl; [done|].
  specialize (Hb i s). destruct (body i s); simpl; first [apply IH | done].
Qed.

(** ** Tables written in place

    The two nested loops over [j, k < 256] that rewrite one entry per
    step: entry [(j, k)] of the row at offset [base] becomes [h j k] of
    its old value, and nothing else changes. *)
Section Region.
Context {A : Type}.
Implicit Types (buf : list A).

Lemma region_loop (h : nat → nat → A → A) (body : nat → nat → list A → outcome (list A))
    (base : nat) (buf0 : list A) :
  base + 256 * 256 ≤ length buf0 →
  (∀ j k buf old, j < 256 → k < 256 → length buf = length buf0 →
     buf !! (base + (j * 256 + k)) = Some old →
     body j k buf = Ok (<[base + (j * 256 + k) := h j k old]> buf)) →
  ∃ buf',
    forM (seq 0 256) (fun j buf => forM (seq 0 256) (fun k buf => body j k buf) buf) buf0
      = Ok buf'
    ∧ length buf' = length buf0
    ∧ (∀ p, p < base ∨ base + 256 * 256 ≤ p → buf' !! p = buf0 !! p)
    ∧ (∀ j k, j < 256 → k < 256 →
         buf' !! (base + (j * 256 + k)) = h j k <$> buf0 !! (base + (j * 256 + k))).
Proof.
  intros Hlen Hbody.
  destruct (forM_inv (fun j buf => region_inv h base buf0 j 0 buf)
              (fun j buf => forM (seq 0 256) (fun k buf => body j k buf) buf)
              256 0 buf0) as (buf' & Hrun & Hl & Hout & Hin).
  - split; [done|]. split; [done|]. intros j' k' _ _.
    case_decide as He; [|done]. lia.
  - intros j buf Hj Hinv.
    destruct (forM_inv (fun k buf => region_inv h base buf0 j k buf)
                (fun k buf => body j k buf) 256 0 buf) as (buf1 & Hrun1 & Hinv1); [done| |].
    + intros k b Hk (Hl & Hout & Hin).
      assert (Hp : base + (j * 256 + k) < length b) by lia.
      destruct (lookup_lt_is_Some_2 b _ Hp) as [old Hold].
      eexists. split; [by apply Hbody; try lia|].
      split; [by rewrite length_insert|]. split.
      * intros p Hp'. rewrite list_lookup_insert_ne by lia. by apply Hout.
      * intros j' k' Hj' Hk'.
        destruct (decide (j' = j ∧ k' = k)) as [[-> ->]|Hne].
        -- rewrite list_lookup_insert_eq by lia.
           rewrite decide_True by lia.
           specialize (Hin j k Hj' Hk').
           rewrite decide_False in Hin by lia.
           rewrite <- Hin, Hold. done.
        -- rewrite list_lookup_insert_ne by lia.
           rewrite Hin by done.
           repeat case_decide; try done; lia.
    + exists buf1. split; [done|].
      destruct Hinv1 as (Hl & Hout & Hin). split; [done|]. split; [done|].
      intros j' k' Hj' Hk'. rewrite Hin by done.
      repeat case_decide; try done; lia.
  - exists buf'. split; [done|]. split; [done|]. split; [done|].
    intros j k Hj Hk. rewrite Hin by done.
    rewrite decide_True; [done|]. lia.
Qed.

End Region.

(** ** Training one subspace *)

Section Train.
Context `{AR : Arith} `{CV : !OpenCV} `{CM : !Common}.
Implicit Types (q : ProductQuantizationTransform) (c : Mat float) (buf : list float).

Lemma row_Ok c j : j < rows c → row c j = Ok (center_row c j).
Proof. intros Hj. unfold row. by rewrite decide_True. Qed.

Lemma write_Ok {A} (l : list A) p v : p < length l → write l p v = Ok (<[p := v]> l).
Proof. intros Hp. unfold write. by rewrite decide_True. Qed.

Lemma fill_raw_spec d c base buf0 :
  rows c = 256 → base + 256 * 256 ≤ length buf0 →
  ∃ buf', fill_raw d c base buf0 = Ok buf'
    ∧ length buf' = length buf0
    ∧ (∀ p, p < base ∨ base + 256 * 256 ≤ p → buf' !! p = buf0 !! p)
    ∧ (∀ j k, j < 256 → k < 256 →
         buf' !! (base + (j * 256 + k)) = Some (raw_table d c j k)).
Proof.
  intros Hc Hlen.
  destruct (region_loop (fun j k _ => raw_table d c j k)
              (fun j k buf => cj ← row c j; ck ← row c k;
                              write buf (base + (j * 256 + k)) (d cj ck))
              base buf0 Hlen) as (buf' & Hrun & Hl & Hout & Hin).
  - intros j k buf old Hj Hk Hl _.
    rewrite !row_Ok by lia. simpl. apply write_Ok. lia.
  - exists buf'. split; [exact Hrun|]. split; [done|]. split; [done|].
    intros j k Hj Hk. rewrite Hin by done.
    destruct (lookup_lt_is_Some_2 buf0 (base + (j * 256 + k))) as [x ->]; [lia|done].
Qed.

Lemma calibrate_spec g i hG hI base buf0 :
  base + 256 * 256 ≤ length buf0 →
  ∃ buf', calibrate g i hG hI base buf0 = Ok buf'
    ∧ length buf' = length buf0
    ∧ (∀ p, p < base ∨ base + 256 * 256 ≤ p → buf' !! p = buf0 !! p)
    ∧ (∀ j k, j < 256 → k < 256 →
         buf' !! (base + (j * 256 + k)) =
           (fun x => d2f (dlog (ddiv (KernelDensityEstimation g x hG)
                                     (KernelDensityEstimation i x hI))))
             <$> buf0 !! (base + (j * 256 + k))).
Proof.
  intros Hlen.
  apply (region_loop (fun _ _ x => d2f (dlog (ddiv (KernelDensityEstimation g x hG)
                                                  (KernelDensityEstimation i x hI))))
           (fun j k buf => x ← deref (buf !! (base + (j * 256 + k)));
              write buf (base + (j * 256 + k))
                (d2f (dlog (ddiv (KernelDensityEstimation g x hG)
                                 (KernelDensityEstimation i x hI)))))
           base buf0 Hlen).
  intros j k buf old Hj Hk Hl Hold. rewrite Hold. simpl. apply write_Ok. lia.
Qed.

(** A loop that appends to two lists. *)
Lemma forM_append {A} (body : nat → list A * list A → outcome (list A * list A))
    (fg fi : nat → list A) (idx : list nat) :
  (∀ j s, j ∈ idx → body j s = Ok (s.1 ++ fg j, s.2 ++ fi j)) →
  ∀ s, forM idx body s = Ok (s.1 ++ flat_map fg idx, s.2 ++ flat_map fi idx).
Proof.
  induction idx as [|j idx IH]; intros Hb s; simpl.
  - rewrite !app_nil_r. by destruct s.
  - rewrite Hb by constructor. simpl.
    rewrite IH by (intros; apply Hb; by constructor). simpl.
    by rewrite <- !app_assoc.
Qed.

(** The pair loop collects the two populations of the row's table. *)
Lemma collect_scores_spec (tbl : nat → nat → float) indicies labels base buf :
  (∀ a b, a < 256 → b < 256 → buf !! (base + (a * 256 + b)) = Some (tbl a b)) →
  Forall (fun a => a < 256) indicies →
  length indicies ≤ length labels →
  collect_scores indicies labels base buf
    = Ok (population tbl indicies labels true, population tbl indicies labels false).
Proof.
  intros Htbl Hind Hlab. unfold collect_scores, population.
  rewrite (forM_append _
             (fun i => flat_map (pair_score tbl indicies labels true i)
                         (seq (i + 1) (length indicies - (i + 1))))
             (fun i => flat_map (pair_score tbl indicies labels false i)
                         (seq (i + 1) (length indicies - (i + 1))))); [done|].
  intros i s Hi. apply elem_of_seq in Hi.
  apply forM_append. intros j [g im] Hj. apply elem_of_seq in Hj.
  destruct (lookup_lt_is_Some_2 indicies i) as [a Ha]; [lia|].
  destruct (lookup_lt_is_Some_2 indicies j) as [b Hb]; [lia|].
  destruct (lookup_lt_is_Some_2 labels i) as [li Hli]; [lia|].
  destruct (lookup_lt_is_Some_2 labels j) as [lj Hlj]; [lia|].
  assert (a < 256) by (eapply (Forall_lookup_1 _ _ _ _ Hind Ha)).
  assert (b < 256) by (eapply (Forall_lookup_1 _ _ _ _ Hind Hb)).
  unfold pair_score. rewrite Ha, Hb, Hli, Hlj. simpl.
  rewrite Htbl by done. simpl.
  destruct (decide (li = lj)) as [->|Hne].
  - rewrite bool_decide_eq_true_2 by done. simpl. by rewrite app_nil_r.
  - rewrite bool_decide_eq_false_2 by done. simpl. by rewrite app_nil_r.
Qed.

(** [_train] without calibration. *)
Lemma _train_raw q data labels L base lbl c :
  bayesian q = false →
  kmeans data 256 = Ok (lbl, c) → rows c = 256 →
  base + 256 * 256 ≤ L →
  trains_to q data labels L base c (trained_entry q labels lbl c).
Proof.
  intros Hb Hk Hc HL buf Hl. unfold _train, trained_entry. rewrite Hk, Hb. ostep.
  destruct (fill_raw_spec (distance q) c base buf Hc) as (buf' & -> & ? & ? & ?); [lia|].
  ostep. exists buf'. split; [done|]. split; [lia|]. done.
Qed.

(** [_train] with calibration. *)
Lemma _train_bayesian q data labels L base lbl c :
  bayesian q = true →
  kmeans data 256 = Ok (lbl, c) → rows c = 256 →
  Forall (fun a => a < 256) lbl → length lbl ≤ length labels →
  (Z.of_nat (rows data * rows data) ≤ INT_MAX)%Z →
  base + 256 * 256 ≤ L →
  trains_to q data labels L base c (trained_entry q labels lbl c).
Proof.
  intros Hb Hk Hc Hlbl Hlab Hov HL buf Hl. unfold _train, trained_entry.
  rewrite Hk, Hb. ostep.
  destruct (fill_raw_spec (distance q) c base buf Hc) as (buf1 & -> & Hl1 & Hout1 & Hin1); [lia|].
  ostep. rewrite decide_True by done.
  rewrite (collect_scores_spec (raw_table (distance q) c)) by done. ostep.
  destruct (calibrate_spec
              (Downsample (population (raw_table (distance q) c) lbl labels true) 256)
              (Downsample (population (raw_table (distance q) c) lbl labels false) 256)
              (KernelDensityBandwidth
                 (Downsample (population (raw_table (distance q) c) lbl labels true) 256))
              (KernelDensityBandwidth
                 (Downsample (population (raw_table (distance q) c) lbl labels false) 256))
              base buf1) as (buf2 & -> & Hl2 & Hout2 & Hin2); [lia|].
  ostep. exists buf2. split; [done|]. split; [lia|]. split.
  - intros p Hp. rewrite Hout2 by done. by apply Hout1.
  - intros j k Hj Hk'. rewrite Hin2, Hin1 by done. done.
Qed.

End Train.

(** ** Training all subspaces *)

Section TrainAll.
Context `{AR : Arith} `{CV : !OpenCV} `{CM : !Common}.
Implicit Types (q : ProductQuantizationTransform) (c : Mat float) (buf : list float).

Lemma train_loop_spec q data labels lutrows (C : nat → Mat float)
    (E : nat → nat → nat → float) buf0 (cs0 : list (Mat float)) :
  length buf0 = lutrows * (256 * 256) →
  lutrows ≤ length cs0 →
  (∀ i, i < lutrows →
     trains_to q (subspace q data i) labels (lutrows * (256 * 256)) (i * (256 * 256))
       (C i) (E i)) →
  ∃ buf cs,
    train_loop q data labels lutrows (buf0, cs0) = Ok (buf, cs)
    ∧ length buf = lutrows * (256 * 256)
    ∧ length cs = length cs0
    ∧ (∀ i, i < lutrows → cs !! i = Some (C i))
    ∧ (∀ i, lutrows ≤ i → cs !! i = cs0 !! i)
    ∧ (∀ i j k, i < lutrows → j < 256 → k < 256 →
         buf !! (i * (256 * 256) + (j * 256 + k)) = Some (E i j k)).
Proof.
  intros Hl0 Hcs0 Hsub. unfold train_loop.
  destruct (forM_inv
    (fun t (s : list float * list (Mat float)) =>
       length s.1 = lutrows * (256 * 256)
       ∧ length s.2 = length cs0
       ∧ (∀ i, i < t → s.2 !! i = Some (C i))
       ∧ (∀ i, t ≤ i → s.2 !! i = cs0 !! i)
       ∧ (∀ i j k, i < t → j < 256 → k < 256 →
            s.1 !! (i * (256 * 256) + (j * 256 + k)) = Some (E i j k)))
    (fun i '(buf, cs) =>
       '(buf', c) ← _train q (colRange data (i * Z.to_nat (n q)) ((i + 1) * Z.to_nat (n q)))
                      labels (i * (256 * 256)) buf;
       Ok (buf', <[i := c]> cs))
    lutrows 0 (buf0, cs0)) as ([buf cs] & Hrun & Hinv).
  - cbn [fst snd]. split; [done|]. split; [done|].
    split; [intros; lia|]. split; [done|]. intros; lia.
  - intros t [buf cs] Ht (Hl & Hlc & Hdone & Hrest & Hin). cbn [fst snd] in *.
    destruct (Hsub t ltac:(lia) buf Hl) as (buf' & Hrun & Hl' & Hout & Hin').
    unfold subspace in Hrun. rewrite Hrun. ostep.
    eexists. split; [done|]. cbn [fst snd].
    split; [done|]. split; [by rewrite length_insert|]. split; [|split].
    + intros i Hi. destruct (decide (i = t)) as [->|Hne].
      * rewrite list_lookup_insert_eq by lia. done.
      * rewrite list_lookup_insert_ne by lia. apply Hdone. lia.
    + intros i Hi. rewrite list_lookup_insert_ne by lia. apply Hrest. lia.
    + intros i j k Hi Hj Hk. destruct (decide (i = t)) as [->|Hne].
      * by apply Hin'.
      * rewrite Hout by (left; nia). apply Hin; [lia|done..].
  - exists buf, cs. split; [exact Hrun|].
    destruct Hinv as (? & ? & ? & ? & ?). cbn [fst snd] in *. done.
Qed.

(** Training returns whenever every subspace trains, and then holds what
    the subspaces were trained to. *)
Lemma train_spec q LUTs data labels (C : nat → Mat float) (E : nat → nat → nat → float) :
  (0 < n q)%Z →
  Z.rem (Z.of_nat (cols data)) (n q) = 0%Z →
  index q < length LUTs →
  (∀ i, i < subspaces q data →
     trains_to q (subspace q data i) labels (subspaces q data * (256 * 256))
       (i * (256 * 256)) (C i) (E i)) →
  ∃ cs buf,
    train q LUTs data labels
      = Ok (set_centers q cs,
            <[index q := mkMat (subspaces q data) (256 * 256) buf]> LUTs)
    ∧ length cs = length (centers q) + subspaces q data
    ∧ (∀ i, i < subspaces q data → cs !! i = Some (C i))
    ∧ (∀ i j k, i < subspaces q data → j < 256 → k < 256 →
         buf !! (i * (256 * 256) + (j * 256 + k)) = Some (E i j k)).
Proof.
  intros Hn Hrem Hidx Hsub. unfold train.
  rewrite decide_False by lia.
  rewrite decide_False by (intros H; apply H; exact Hrem).
  rewrite decide_True by done.
  rewrite decide_False by (apply Zle_not_lt, Z.quot_pos; lia).
  fold (subspaces q data).
  destruct (train_loop_spec q data labels (subspaces q data) C E
              (replicate (subspaces q data * (256 * 256)) indeterminate)
              (centers q ++ replicate (subspaces q data) Mat_empty))
    as (buf & cs & Hrun & Hl & Hlc & Hcs & _ & Hin).
  - by rewrite length_replicate.
  - rewrite length_app, length_replicate. lia.
  - done.
  - rewrite Hrun. ostep. exists cs, buf. split; [done|].
    split; [|done]. rewrite Hlc, length_app, length_replicate. done.
Qed.

End TrainAll.

(** ** The sample instance meets what is asked of the interfaces *)

Lemma argmin_bound x cs j best bestd B :
  best < j → j + length cs ≤ B → Sample.argmin x cs j best bestd < B.
Proof.
  revert j best bestd. induction cs as [|c cs IH]; intros j best bestd Hb HB;
    cbn [Sample.argmin length] in *; [lia|].
  destruct (Sample.sq_dist x c <? bestd)%Z; apply IH; lia.
Qed.

Lemma nearest_bound cs x B : length cs ≤ B → 0 < B → Sample.nearest cs x < B.
Proof.
  intros HB HB0. destruct cs as [|c cs]; cbn [Sample.nearest length] in *; [done|].
  apply argmin_bound; lia.
Qed.

Lemma sample_kmeans_ok (m : Mat Z) (K : nat) :
  0 < K → K ≤ rows m →
  ∃ lbl c, @kmeans Sample.arith Sample.opencv m K = Ok (lbl, c)
    ∧ rows c = K ∧ Forall (fun a => a < K) lbl ∧ length lbl = rows m.
Proof.
  intros HK0 HK. cbn [kmeans Sample.opencv]. unfold Sample.first_rows.
  rewrite decide_True by done. eexists _, _. split; [done|].
  split; [done|]. split.
  - apply Forall_map, Forall_forall. intros x _.
    apply nearest_bound; [|done]. rewrite length_take. lia.
  - unfold Sample.rows_of. by rewrite !length_map, length_seq.
Qed.

Lemma sample_Downsample_caps : @Downsample_caps Sample.arith Sample.common.
Proof.
  intros vals k. cbn [Downsample Sample.common]. unfold Sample.evenly_spaced.
  case_decide; [done|]. by rewrite length_map, length_seq.
Qed.

Lemma sample_get_put_nat k rest :
  Sample.get_nat (Sample.put_nat k ++ rest) = Some (k, rest).
Proof.
  unfold Sample.put_nat. induction k as [|k IH]; [done|].
  cbn [replicate app Sample.get_nat] in *. by rewrite IH.
Qed.

Lemma sample_get_put_Z z rest :
  Sample.get_Z (Sample.put_Z z ++ rest) = Some (z, rest).
Proof.
  unfold Sample.put_Z, Sample.get_Z. cbn [app].
  rewrite sample_get_put_nat.
  destruct (Z.ltb_spec z 0); do 2 f_equal; lia.
Qed.

Lemma sample_get_put_Zs l rest :
  Sample.get_Zs (length l) (Sample.put_Zs l ++ rest) = Some (l, rest).
Proof.
  induction l as [|z l IH]; [done|].
  cbn [length Sample.put_Zs Sample.get_Zs]. rewrite <- app_assoc.
  by rewrite sample_get_put_Z, IH.
Qed.

Lemma sample_codec_round_trip : @MatCodec_round_trip Sample.arith Sample.codec.
Proof.
  intros [r c d] rest. cbn [put_Mat get_Mat Sample.codec].
  unfold Sample.put_matrix, Sample.get_matrix. cbn [rows cols data].
  rewrite <- !app_assoc.
  by rewrite !sample_get_put_nat, sample_get_put_Zs.
Qed.

Lemma sample_subspaces q :
  n q = 2%Z → @subspaces Sample.arith q Sample.samples = 2.
Proof. intros Hn. unfold subspaces. rewrite Hn. reflexivity. Qed.

(** ** The raw tables *)

Section RawTables.
Context `{AR : Arith} `{CV : !OpenCV} `{CM : !Common}.
Implicit Types (q : ProductQuantizationTransform) (c : Mat float).

Lemma codebook_eq q data i lbl c :
  kmeans (subspace q data i) 256 = Ok (lbl, c) →
  codebook q data i = c ∧ assignment q data i = lbl.
Proof. intros H. unfold codebook, assignment. by rewrite H. Qed.

(** C1: training without calibration returns and leaves, in the registry
    slot of the quantizer, for every subspace [i] and all [j, k < 256], the
    configured distance between the centers [j] and [k] of the codebook of
    that subspace, which has 256 centers. *)
Theorem train_raw_tables q LUTs X labels :
  bayesian q = false →
  (0 < n q)%Z →
  Z.rem (Z.of_nat (cols X)) (n q) = 0%Z →
  index q < length LUTs →
  (∀ i, i < subspaces q X →
     ∃ lbl c, kmeans (subspace q X i) 256 = Ok (lbl, c) ∧ rows c = 256) →
  ∃ q' LUTs' lut,
    train q LUTs X labels = Ok (q', LUTs')
    ∧ LUTs' !! index q' = Some lut
    ∧ ∀ i, i < subspaces q X →
        ∃ lbl c, kmeans (subspace q X i) 256 = Ok (lbl, c)
          ∧ centers q' !! i = Some c
          ∧ rows c = 256
          ∧ ∀ j k, j < 256 → k < 256 →
              ∃ cj ck, row c j = Ok cj ∧ row c k = Ok ck
                ∧ data lut !! (i * (256 * 256) + (j * 256 + k))
                  = Some (distance q' cj ck).
Proof.
  intros Hb Hn Hrem Hidx Hk.
  destruct (train_spec q LUTs X labels (codebook q X)
              (fun i => trained_entry q labels (assignment q X i) (codebook q X i))
              Hn Hrem Hidx) as (cs & buf & Hrun & _ & Hcs & Hin).
  - intros i Hi. destruct (Hk i Hi) as (lbl & c & Hkm & Hc).
    destruct (codebook_eq _ _ _ _ _ Hkm) as [-> ->].
    apply _train_raw; [done..|]. nia.
  - eexists _, _, _. split; [exact Hrun|]. split.
    + cbn [set_centers index]. by apply list_lookup_insert_eq.
    + intros i Hi. destruct (Hk i Hi) as (lbl & c & Hkm & Hc).
      destruct (codebook_eq _ _ _ _ _ Hkm) as [Ec El].
      exists lbl, c. split; [done|]. split.
      { cbn [set_centers centers]. rewrite Hcs by done. by rewrite Ec. }
      split; [done|]. intros j k Hj Hk'.
      exists (center_row c j), (center_row c k).
      rewrite !row_Ok by lia. split; [done|]. split; [done|].
      cbn [data set_centers distance]. rewrite Hin by done.
      unfold trained_entry. rewrite Hb, Ec. done.
Qed.

End RawTables.

Lemma train_raw_tables_witness :
  ∃ q' LUTs' lut,
    @train Sample.arith Sample.opencv Sample.common
      Sample.fresh.1 Sample.fresh.2 Sample.samples Sample.two_classes = Ok (q', LUTs')
    ∧ LUTs' !! index q' = Some lut
    ∧ ∃ c, centers q' !! 1 = Some c ∧ rows c = 256.
Proof.
  destruct (@train_raw_tables Sample.arith Sample.opencv Sample.common
              Sample.fresh.1 Sample.fresh.2 Sample.samples Sample.two_classes)
    as (q' & LUTs' & lut & Hrun & Hlut & Hsub).
  - reflexivity.
  - reflexivity.
  - reflexivity.
  - cbn. lia.
  - intros i _.
    destruct (sample_kmeans_ok (@subspace Sample.arith Sample.fresh.1 Sample.samples i) 256)
      as (lbl & c & ? & ? & _); [lia|reflexivity|]. eauto.
  - exists q', LUTs', lut. split; [exact Hrun|]. split; [exact Hlut|].
    destruct (Hsub 1) as (lbl & c & _ & Hc & Hr & _).
    + rewrite sample_subspaces by reflexivity. lia.
    + eauto.
Defined.

(** ** Calibration *)

Section Calibration.
Context `{AR : Arith} `{CV : !OpenCV} `{CM : !Common}.
Implicit Types (q : ProductQuantizationTransform) (c : Mat float).

Lemma flat_map_nil {A B} (f : A → list B) (l : list A) :
  (∀ x, x ∈ l → f x = []) → flat_map f l = [].
Proof.
  induction l as [|x l IH]; intros Hf; [done|]. cbn [flat_map].
  rewrite Hf by constructor. apply IH. intros. apply Hf. by constructor.
Qed.

(** With a single class among the samples there is no impostor pair. *)
Lemma population_one_class (tbl : nat → nat → float) indicies N v :
  population tbl indicies (replicate N v) false = [].
Proof.
  unfold population. apply flat_map_nil. intros i _.
  apply flat_map_nil. intros j _. unfold pair_score.
  destruct (indicies !! i), (indicies !! j); try done.
  destruct (replicate N v !! i) as [li|] eqn:Ei; [|done].
  destruct (replicate N v !! j) as [lj|] eqn:Ej; [|done].
  apply lookup_replicate in Ei as [-> _]. apply lookup_replicate in Ej as [-> _].
  by rewrite bool_decide_eq_true_2.
Qed.

(** Training with calibration returns whenever clustering does, and every
    entry is the log-likelihood ratio of its raw value. *)
Lemma train_bayesian_spec q LUTs X labels :
  bayesian q = true →
  (0 < n q)%Z →
  Z.rem (Z.of_nat (cols X)) (n q) = 0%Z →
  index q < length LUTs →
  (Z.of_nat (rows X * rows X) ≤ INT_MAX)%Z →
  rows X ≤ length labels →
  (∀ i, i < subspaces q X →
     ∃ lbl c, kmeans (subspace q X i) 256 = Ok (lbl, c) ∧ rows c = 256
       ∧ Forall (fun a => a < 256) lbl ∧ length lbl = rows X) →
  ∃ cs buf,
    train q LUTs X labels
      = Ok (set_centers q cs, <[index q := mkMat (subspaces q X) (256 * 256) buf]> LUTs)
    ∧ ∀ i, i < subspaces q X →
        cs !! i = Some (codebook q X i)
        ∧ ∀ j k, j < 256 → k < 256 →
            buf !! (i * (256 * 256) + (j * 256 + k))
              = Some (llr (population (raw_table (distance q) (codebook q X i))
                                      (assignment q X i) labels true)
                          (population (raw_table (distance q) (codebook q X i))
                                      (assignment q X i) labels false)
                          (raw_table (distance q) (codebook q X i) j k)).
Proof.
  intros Hb Hn Hrem Hidx Hov Hlab Hk.
  destruct (train_spec q LUTs X labels (codebook q X)
              (fun i => trained_entry q labels (assignment q X i) (codebook q X i))
              Hn Hrem Hidx) as (cs & buf & Hrun & _ & Hcs & Hin).
  - intros i Hi. destruct (Hk i Hi) as (lbl & c & Hkm & Hc & Hlbl & Hlen).
    destruct (codebook_eq _ _ _ _ _ Hkm) as [-> ->].
    apply _train_bayesian; [done..|lia|done|nia].
  - exists cs, buf. split; [exact Hrun|]. intros i Hi. split; [by apply Hcs|].
    intros j k Hj Hk'. rewrite Hin by done. unfold trained_entry. by rewrite Hb.
Qed.

(** C5: with calibration enabled, training downsamples the genuine and
    the impostor scores of every subspace to at most 256 each, takes one
    bandwidth per population, and replaces every entry [(j, k)] of the
    subspace's table by the logarithm of the ratio of the two density
    estimates at the raw entry [distance(center j, center k)]. *)
Theorem train_calibrated_tables q LUTs X labels :
  bayesian q = true →
  (0 < n q)%Z →
  Z.rem (Z.of_nat (cols X)) (n q) = 0%Z →
  index q < length LUTs →
  Downsample_caps →
  (Z.of_nat (rows X * rows X) ≤ INT_MAX)%Z →
  rows X ≤ length labels →
  (∀ i, i < subspaces q X →
     ∃ lbl c, kmeans (subspace q X i) 256 = Ok (lbl, c) ∧ rows c = 256
       ∧ Forall (fun a => a < 256) lbl ∧ length lbl = rows X) →
  ∃ q' LUTs' lut,
    train q LUTs X labels = Ok (q', LUTs')
    ∧ LUTs' !! index q' = Some lut
    ∧ ∀ i, i < subspaces q X →
        ∃ lbl c genuineScores impostorScores hGenuine hImpostor,
          kmeans (subspace q X i) 256 = Ok (lbl, c)
          ∧ centers q' !! i = Some c
          ∧ genuineScores
              = Downsample (population (raw_table (distance q) c) lbl labels true) 256
          ∧ impostorScores
              = Downsample (population (raw_table (distance q) c) lbl labels false) 256
          ∧ length genuineScores ≤ 256
          ∧ length impostorScores ≤ 256
          ∧ hGenuine = KernelDensityBandwidth genuineScores
          ∧ hImpostor = KernelDensityBandwidth impostorScores
          ∧ ∀ j k, j < 256 → k < 256 →
              data lut !! (i * (256 * 256) + (j * 256 + k))
                = Some (d2f (dlog (ddiv
                    (KernelDensityEstimation genuineScores
                       (raw_table (distance q) c j k) hGenuine)
                    (KernelDensityEstimation impostorScores
                       (raw_table (distance q) c j k) hImpostor)))).
Proof.
  intros Hb Hn Hrem Hidx Hcap Hov Hlab Hk.
  destruct (train_bayesian_spec q LUTs X labels Hb Hn Hrem Hidx Hov Hlab Hk)
    as (cs & buf & Hrun & Hsub).
  eexists _, _, _. split; [exact Hrun|]. split.
  { cbn [set_centers index]. by apply list_lookup_insert_eq. }
  intros i Hi. destruct (Hk i Hi) as (lbl & c & Hkm & _).
  destruct (codebook_eq _ _ _ _ _ Hkm) as [Ec El].
  destruct (Hsub i Hi) as [Hc Hin]. rewrite Ec, El in *.
  eexists lbl, c, _, _, _, _. split; [done|]. split; [done|].
  split; [reflexivity|]. split; [reflexivity|].
  split; [apply Hcap|]. split; [apply Hcap|].
  split; [reflexivity|]. split; [reflexivity|].
  intros j k Hj Hk'. cbn [data]. rewrite Hin by done. done.
Qed.

(** C6, as the code has it: with calibration enabled, a subspace whose
    genuine or impostor population is empty is not checked for: training
    returns, and every entry of that subspace's table is the log-ratio
    computed from the empty population like from any other. *)
Theorem train_empty_population_unchecked q LUTs X labels i :
  bayesian q = true →
  (0 < n q)%Z →
  Z.rem (Z.of_nat (cols X)) (n q) = 0%Z →
  index q < length LUTs →
  (Z.of_nat (rows X * rows X) ≤ INT_MAX)%Z →
  rows X ≤ length labels →
  (∀ i, i < subspaces q X →
     ∃ lbl c, kmeans (subspace q X i) 256 = Ok (lbl, c) ∧ rows c = 256
       ∧ Forall (fun a => a < 256) lbl ∧ length lbl = rows X) →
  i < subspaces q X →
  population (raw_table (distance q) (codebook q X i)) (assignment q X i) labels true = []
  ∨ population (raw_table (distance q) (codebook q X i)) (assignment q X i) labels false = [] →
  ∃ q' LUTs' lut,
    train q LUTs X labels = Ok (q', LUTs')
    ∧ LUTs' !! index q' = Some lut
    ∧ ∀ j k, j < 256 → k < 256 →
        data lut !! (i * (256 * 256) + (j * 256 + k))
          = Some (llr (population (raw_table (distance q) (codebook q X i))
                                  (assignment q X i) labels true)
                      (population (raw_table (distance q) (codebook q X i))
                                  (assignment q X i) labels false)
                      (raw_table (distance q) (codebook q X i) j k)).
Proof.
  intros Hb Hn Hrem Hidx Hov Hlab Hk Hi _.
  destruct (train_bayesian_spec q LUTs X labels Hb Hn Hrem Hidx Hov Hlab Hk)
    as (cs & buf & Hrun & Hsub).
  eexists _, _, _. split; [exact Hrun|]. split.
  { cbn [set_centers index]. by apply list_lookup_insert_eq. }
  intros j k Hj Hk'. cbn [data]. by apply Hsub.
Qed.

End Calibration.

Lemma sample_clusters q i :
  ∃ lbl c, @kmeans Sample.arith Sample.opencv
             (@subspace Sample.arith q Sample.samples i) 256 = Ok (lbl, c)
    ∧ rows c = 256 ∧ Forall (fun a => a < 256) lbl ∧ length lbl = rows Sample.samples.
Proof.
  destruct (sample_kmeans_ok (@subspace Sample.arith q Sample.samples i) 256)
    as (lbl & c & Hk & Hc & Hl & Hn); [lia|reflexivity|].
  exists lbl, c. split; [exact Hk|]. split; [exact Hc|]. split; [exact Hl|]. exact Hn.
Qed.

Lemma train_calibrated_tables_witness :
  ∃ q' LUTs' lut,
    @train Sample.arith Sample.opencv Sample.common
      Sample.fresh_bayesian.1 Sample.fresh_bayesian.2 Sample.samples Sample.two_classes
      = Ok (q', LUTs')
    ∧ LUTs' !! index q' = Some lut.
Proof.
  destruct (@train_calibrated_tables Sample.arith Sample.opencv Sample.common
              Sample.fresh_bayesian.1 Sample.fresh_bayesian.2 Sample.samples
              Sample.two_classes)
    as (q' & LUTs' & lut & Hrun & Hlut & _).
  - reflexivity.
  - reflexivity.
  - reflexivity.
  - cbn. lia.
  - apply sample_Downsample_caps.
  - vm_compute. discriminate.
  - unfold Sample.two_classes. rewrite length_map, length_seq. reflexivity.
  - intros i _. apply sample_clusters.
  - eauto.
Defined.

(** C6, as stated, fails: a training set with a single class has no
    impostor pair, and training with calibration returns on it. *)
Lemma one_class_training_returns :
  @population Sample.arith
     (@raw_table Sample.arith Sample.L2 (@codebook Sample.arith Sample.opencv Sample.fresh_bayesian.1 Sample.samples 0))
     (@assignment Sample.arith Sample.opencv Sample.fresh_bayesian.1 Sample.samples 0)
     Sample.one_class false = []
  ∧ ∃ r, @train Sample.arith Sample.opencv Sample.common
           Sample.fresh_bayesian.1 Sample.fresh_bayesian.2 Sample.samples Sample.one_class
         = Ok r
  ∧ ∀ msg, @train Sample.arith Sample.opencv Sample.common
           Sample.fresh_bayesian.1 Sample.fresh_bayesian.2 Sample.samples Sample.one_class
         ≠ Fatal msg.
Proof.
  split; [apply (@population_one_class Sample.arith)|].
  destruct (@train_bayesian_spec Sample.arith Sample.opencv Sample.common
              Sample.fresh_bayesian.1 Sample.fresh_bayesian.2 Sample.samples Sample.one_class)
    as (cs & buf & Hrun & _).
  - reflexivity.
  - reflexivity.
  - reflexivity.
  - cbn. lia.
  - vm_compute. discriminate.
  - reflexivity.
  - intros i _. apply sample_clusters.
  - eexists. split; [exact Hrun|]. intros msg. rewrite Hrun. discriminate.
Qed.

Lemma train_empty_population_unchecked_witness :
  ∃ q' LUTs',
    @train Sample.arith Sample.opencv Sample.common
      Sample.fresh_bayesian.1 Sample.fresh_bayesian.2 Sample.samples Sample.one_class
      = Ok (q', LUTs').
Proof.
  destruct (@train_empty_population_unchecked Sample.arith Sample.opencv Sample.common
              Sample.fresh_bayesian.1 Sample.fresh_bayesian.2 Sample.samples
              Sample.one_class 0)
    as (q' & LUTs' & lut & Hrun & _).
  - reflexivity.
  - reflexivity.
  - reflexivity.
  - cbn. lia.
  - vm_compute. discriminate.
  - reflexivity.
  - intros i _. apply sample_clusters.
  - rewrite sample_subspaces by reflexivity. lia.
  - right. apply (@population_one_class Sample.arith).
  - eauto.
Defined.

(** ** The divisibility check *)

Lemma train_zero_width `{AR : Arith} `{CV : !OpenCV} `{CM : !Common}
    (q : ProductQuantizationTransform) LUTs X labels :
  n q = 0%Z → train q LUTs X labels = Undefined.
Proof. intros Hn. unfold train. by rewrite decide_True. Qed.

(** C7: when the dimensionality is not divisible by the subspace width,
    training aborts with the diagnostic of its first statement, whatever
    the clustering would do: no clustering has started. *)
Theorem train_indivisible_fatal (AR : Arith) (CV : OpenCV) (CM : Common)
    (q : ProductQuantizationTransform) (LUTs : Registry) (X : Mat float) (labels : list Z) :
  n q ≠ 0%Z →
  Z.rem (Z.of_nat (cols X)) (n q) ≠ 0%Z →
  train q LUTs X labels = Fatal "Expected dimensionality to be divisible by n.".
Proof.
  intros Hn Hrem. unfold train.
  rewrite decide_False by done. by rewrite decide_True.
Qed.

Lemma train_indivisible_fatal_witness :
  @train Sample.arith Sample.opencv Sample.common
    Sample.fresh.1 Sample.fresh.2 (mkMat 1 5 [1; 2; 3; 4; 5]%Z) [0%Z]
  = Fatal "Expected dimensionality to be divisible by n.".
Proof.
  apply (train_indivisible_fatal Sample.arith Sample.opencv Sample.common).
  - vm_compute. discriminate.
  - vm_compute. discriminate.
Defined.

(** ** The registry *)

Section RegistrySlots.
Context `{AR : Arith} `{CV : !OpenCV} `{CM : !Common} `{MC : !MatCodec}.
Implicit Types (q : ProductQuantizationTransform) (LUTs : Registry).

Lemma construct_all_spec (ds : list description) LUTs :
  map index (construct_all ds LUTs).1 = seq (length LUTs) (length ds)
  ∧ (construct_all ds LUTs).2 = LUTs ++ replicate (length ds) Mat_empty.
Proof.
  revert LUTs. induction ds as [|[[n0 d] b] ds IH]; intros LUTs.
  - cbn. by rewrite app_nil_r.
  - cbn [construct_all construct].
    destruct (construct_all ds (LUTs ++ [Mat_empty])) as [qs LUTs2] eqn:E.
    specialize (IH (LUTs ++ [Mat_empty])). rewrite E in IH.
    cbn [fst snd map index length seq replicate] in *. destruct IH as [-> ->].
    rewrite length_app. cbn [length]. split.
    + f_equal. f_equal. lia.
    + by rewrite <- app_assoc.
Qed.

(** Training writes the slot of the quantizer and reads no slot. *)
Lemma train_frame q LUTs X labels q' LUTs' :
  train q LUTs X labels = Ok (q', LUTs') →
  index q' = index q
  ∧ ∃ lut, LUTs' = <[index q := lut]> LUTs
      ∧ ∀ LUTs2, index q < length LUTs2 →
          train q LUTs2 X labels = Ok (q', <[index q := lut]> LUTs2).
Proof.
  unfold train. intros H.
  repeat case_decide; try discriminate.
  destruct (train_loop q X labels _ _) as [[buf cs]| | |] eqn:E; try discriminate.
  cbn [mbind outcome_bind] in H.
  set (lut := mkMat _ _ buf) in *.
  injection H as <- <-. split; [done|].
  exists lut. split; [done|]. intros LUTs2 Hin.
  rewrite decide_True by done. done.
Qed.

(** Storing reads the slot of the quantizer only. *)
Lemma store_frame q LUTs1 LUTs2 :
  LUTs1 !! index q = LUTs2 !! index q → store q LUTs1 = store q LUTs2.
Proof. intros H. unfold store. by rewrite H. Qed.

(** Loading writes the slot of the quantizer and reads no slot. *)
Lemma load_frame q LUTs s q' LUTs' rest :
  load q LUTs s = Ok (q', LUTs', rest) →
  index q' = index q
  ∧ ∃ lut, LUTs' = <[index q := lut]> LUTs
      ∧ ∀ LUTs2, index q < length LUTs2 →
          load q LUTs2 s = Ok (q', <[index q := lut]> LUTs2, rest).
Proof.
  unfold load. intros H.
  destruct (get_QList s) as [[cs s1]|]; [|discriminate].
  cbn [deref mbind outcome_bind] in *.
  destruct (get_Mat s1) as [[lut s2]|]; [|discriminate].
  cbn [deref mbind outcome_bind] in *.
  case_decide; [|discriminate]. injection H as <- <- <-. split; [done|].
  eexists. split; [done|]. intros LUTs2 H2. by rewrite decide_True.
Qed.

(** C10: a construction appends one empty slot and takes its position,
    the size of the registry before, as identity; quantizers constructed
    one after the other get the consecutive positions, which are pairwise
    distinct; and training, storing and loading touch the registry at
    the slot of their own identity only. *)
Theorem registry_slots :
  (∀ n0 d b LUTs,
     construct n0 d b LUTs = (mkPQ _ n0 d b (length LUTs) [], LUTs ++ [Mat_empty]))
  ∧ (∀ (ds : list description) LUTs,
       map index (construct_all ds LUTs).1 = seq (length LUTs) (length ds)
       ∧ NoDup (map index (construct_all ds LUTs).1)
       ∧ (construct_all ds LUTs).2 = LUTs ++ replicate (length ds) Mat_empty)
  ∧ (∀ q LUTs X labels q' LUTs',
       train q LUTs X labels = Ok (q', LUTs') →
       index q' = index q
       ∧ ∃ lut, LUTs' = <[index q := lut]> LUTs
           ∧ ∀ LUTs2, index q < length LUTs2 →
               train q LUTs2 X labels = Ok (q', <[index q := lut]> LUTs2))
  ∧ (∀ q LUTs1 LUTs2,
       LUTs1 !! index q = LUTs2 !! index q → store q LUTs1 = store q LUTs2)
  ∧ (∀ q LUTs s q' LUTs' rest,
       load q LUTs s = Ok (q', LUTs', rest) →
       index q' = index q
       ∧ ∃ lut, LUTs' = <[index q := lut]> LUTs
           ∧ ∀ LUTs2, index q < length LUTs2 →
               load q LUTs2 s = Ok (q', <[index q := lut]> LUTs2, rest)).
Proof.
  split; [done|]. split.
  { intros ds LUTs. destruct (construct_all_spec ds LUTs) as [Hi Hr].
    split; [done|]. split; [|done]. rewrite Hi. apply NoDup_seq. }
  split; [apply train_frame|]. split; [apply store_frame|]. apply load_frame.
Qed.

End RegistrySlots.

Lemma sample_training_returns :
  ∃ q' LUTs',
    @train Sample.arith Sample.opencv Sample.common
      Sample.fresh.1 Sample.fresh.2 Sample.samples Sample.two_classes = Ok (q', LUTs').
Proof.
  destruct (@train_spec Sample.arith Sample.opencv Sample.common
              Sample.fresh.1 Sample.fresh.2 Sample.samples Sample.two_classes
              (@codebook Sample.arith Sample.opencv Sample.fresh.1 Sample.samples)
              (fun i => @trained_entry Sample.arith Sample.common Sample.fresh.1
                          Sample.two_classes
                          (@assignment Sample.arith Sample.opencv Sample.fresh.1 Sample.samples i)
                          (@codebook Sample.arith Sample.opencv Sample.fresh.1 Sample.samples i)))
    as (cs & buf & Hrun & _).
  - reflexivity.
  - reflexivity.
  - cbn. lia.
  - intros i Hi. destruct (sample_clusters Sample.fresh.1 i) as (lbl & c & Hkm & Hc & _).
    destruct (@codebook_eq Sample.arith Sample.opencv _ _ _ _ _ Hkm) as [-> ->].
    apply (@_train_raw Sample.arith Sample.opencv Sample.common); [done..|]. nia.
  - eauto.
Qed.

Lemma registry_slots_witness :
  ∃ q' LUTs',
    @train Sample.arith Sample.opencv Sample.common
      Sample.fresh.1 Sample.fresh.2 Sample.samples Sample.two_classes = Ok (q', LUTs')
    ∧ index q' = 0
    ∧ length LUTs' = 1.
Proof.
  destruct sample_training_returns as (q' & LUTs' & Hrun).
  destruct (@registry_slots Sample.arith Sample.opencv Sample.common Sample.codec)
    as (_ & _ & Htrain & _).
  destruct (Htrain _ _ _ _ _ _ Hrun) as (Hidx & lut & -> & _).
  exists q', (<[index Sample.fresh.1 := lut]> Sample.fresh.2).
  split; [exact Hrun|]. split; [exact Hidx|]. by rewrite length_insert.
Defined.

(** ** Comparing codes *)

Section Compare.
Context `{AR : Arith}.

(** A loop whose body is a function of the state. *)
Lemma forM_pure {St} (body : nat → St → outcome St) (f : St → nat → St)
    (idx : list nat) (s : St) :
  (∀ i s, i ∈ idx → body i s = Ok (f s i)) →
  forM idx body s = Ok (foldl f s idx).
Proof.
  revert s. induction idx as [|i idx IH]; intros s Hb; cbn [forM foldl]; [done|].
  rewrite Hb by constructor. ostep. apply IH. intros. apply Hb. by constructor.
Qed.

Lemma foldl_fadd_map (e : nat → float) (idx : list nat) (acc : float) :
  foldl (fun acc j => fadd acc (e j)) acc idx = foldl fadd acc (map e idx).
Proof. revert acc. induction idx as [|i idx IH]; intros acc; cbn; [done|]. apply IH. Qed.

(** The inner loop of [compare]: one table entry per subspace. *)
Lemma compare_code (lut : Mat float) (ad bd : list byte) (elements : nat) (dist : float) :
  elements ≤ length ad → elements ≤ length bd →
  elements * (256 * 256) ≤ length (data lut) →
  (Z.of_nat elements ≤ 32768)%Z →
  forM (seq 0 elements) (fun j dist =>
      x ← deref (ad !! j);
      y ← deref (bd !! j);
      let p := j * 256 * 256 + Byte.to_nat x * 256 + Byte.to_nat y in
      if decide (Z.of_nat p ≤ INT_MAX)%Z
      then v ← deref (data lut !! p); Ok (fadd dist v)
      else Undefined) dist
  = Ok (foldl fadd dist (map (table_entry lut ad bd) (seq 0 elements))).
Proof.
  intros Ha Hb Hlut Hmax. rewrite <- foldl_fadd_map.
  apply forM_pure. intros j s Hj. apply elem_of_seq in Hj.
  destruct (lookup_lt_is_Some_2 ad j) as [x Hx]; [lia|].
  destruct (lookup_lt_is_Some_2 bd j) as [y Hy]; [lia|].
  unfold table_entry. rewrite Hx, Hy. ostep. cbn [default from_option id].
  pose proof (Byte.to_nat_bounded x). pose proof (Byte.to_nat_bounded y).
  rewrite decide_True by (unfold INT_MAX; lia).
  destruct (lookup_lt_is_Some_2 (data lut)
              (j * 256 * 256 + Byte.to_nat x * 256 + Byte.to_nat y)) as [v Hv]; [lia|].
  rewrite Hv. ostep. done.
Qed.

(** Two bodies that agree on the indices of a loop give the same loop. *)
Lemma forM_ext {St} (f g : nat → St → outcome St) (idx : list nat) (s : St) :
  (∀ i s, i ∈ idx → f i s = g i s) → forM idx f s = forM idx g s.
Proof.
  revert s. induction idx as [|i idx IH]; intros s Hfg; cbn [forM]; [done|].
  rewrite Hfg by constructor. destruct (g i s); cbn [mbind outcome_bind]; try done.
  apply IH. intros. apply Hfg. by constructor.
Qed.

(** [compare] reads the registry at the positions of the matrices of
    the first template, and nowhere else. *)
Lemma compare_registry_ext bayesian (LUTs1 LUTs2 : list (Mat float))
    (a b : list (Mat byte)) :
  (∀ i, i < length a → LUTs1 !! i = LUTs2 !! i) →
  compare bayesian LUTs1 a b = compare bayesian LUTs2 a b.
Proof.
  intros H. unfold compare. f_equal.
  apply forM_ext. intros i dist Hi. apply elem_of_seq in Hi.
  by rewrite H by lia.
Qed.

Lemma foldl_fadd_concat (e : nat → list float) (idx : list nat) (acc : float) :
  foldl (fun acc i => foldl fadd acc (e i)) acc idx
  = foldl fadd acc (concat (map e idx)).
Proof.
  revert acc. induction idx as [|i idx IH]; intros acc; cbn [foldl map concat]; [done|].
  rewrite foldl_app. apply IH.
Qed.

(** C2, as the code has it: [compare] takes the table for matrix [i] of
    the two templates from slot [i] of the registry, by the position of
    the matrix and whichever quantizer made the code: slot 0 for a
    template of one code.  When each such slot holds a table that covers
    the code, the score is made of the sum, over the matrices [i] and the
    subspaces [j], of the entries [j][codeA_i[j]][codeB_i[j]] of the
    table in slot [i], handed back as it is in bayesian mode and as
    [-log(sum + 1)] otherwise. *)
Theorem compare_sums_by_position (bayesian : bool) (LUTs : list (Mat float))
    (a b : list (Mat byte)) :
  (∀ i ai, a !! i = Some ai →
     ∃ bi lut, b !! i = Some bi ∧ LUTs !! i = Some lut
       ∧ length (data ai) = total ai
       ∧ total ai ≤ length (data bi)
       ∧ total ai * (256 * 256) ≤ length (data lut)
       ∧ (Z.of_nat (total ai) ≤ 32768)%Z) →
  ∃ entries : list (list float),
    length entries = length a
    ∧ (∀ i ai, a !! i = Some ai →
         ∃ bi lut es, b !! i = Some bi ∧ LUTs !! i = Some lut
           ∧ entries !! i = Some es
           ∧ length es = total ai
           ∧ ∀ j, j < total ai →
               ∃ x y, data ai !! j = Some x ∧ data bi !! j = Some y
                 ∧ data lut !! (j * (256 * 256) + (Byte.to_nat x * 256 + Byte.to_nat y))
                   = es !! j)
    ∧ compare bayesian LUTs a b
      = Ok (if bayesian then foldl fadd fzero (concat entries)
            else fneg (flog (fadd (foldl fadd fzero (concat entries)) fone))).
Proof.
  intros H.
  set (e := fun i =>
    match a !! i, b !! i, LUTs !! i with
    | Some ai, Some bi, Some lut =>
        map (table_entry lut (data ai) (data bi)) (seq 0 (total ai))
    | _, _, _ => []
    end).
  exists (map e (seq 0 (length a))).
  split; [by rewrite length_map, length_seq|]. split.
  - intros i ai Hai.
    destruct (H i ai Hai) as (bi & lut & Hbi & Hlut & Ha & Hb & Hl & Hmax).
    exists bi, lut, (e i). split; [done|]. split; [done|]. split.
    { rewrite list_lookup_fmap, lookup_seq_lt by (by eapply lookup_lt_Some). done. }
    unfold e. rewrite Hai, Hbi, Hlut.
    split; [by rewrite length_map, length_seq|].
    intros j Hj.
    destruct (lookup_lt_is_Some_2 (data ai) j) as [x Hx]; [lia|].
    destruct (lookup_lt_is_Some_2 (data bi) j) as [y Hy]; [lia|].
    exists x, y. split; [done|]. split; [done|].
    rewrite list_lookup_fmap, lookup_seq_lt by done. cbn [fmap option_fmap option_map].
    replace (0 + j) with j by done.
    unfold table_entry. rewrite Hx, Hy. cbn [default from_option id].
    pose proof (Byte.to_nat_bounded x). pose proof (Byte.to_nat_bounded y).
    replace (j * 256 * 256 + Byte.to_nat x * 256 + Byte.to_nat y)
      with (j * (256 * 256) + (Byte.to_nat x * 256 + Byte.to_nat y)) by lia.
    destruct (lookup_lt_is_Some_2 (data lut)
                (j * (256 * 256) + (Byte.to_nat x * 256 + Byte.to_nat y))) as [v ->]; [lia|].
    done.
  - unfold compare.
    rewrite (forM_pure _ (fun dist i => foldl fadd dist (e i))).
    + ostep. by rewrite foldl_fadd_concat.
    + intros i dist Hi. apply elem_of_seq in Hi.
      destruct (lookup_lt_is_Some_2 a i) as [ai Hai]; [lia|].
      destruct (H i ai Hai) as (bi & lut & Hbi & Hlut & Ha & Hb & Hl & Hmax).
      unfold e. rewrite Hai, Hbi, Hlut. ostep.
      by rewrite compare_code by lia.
Qed.

End Compare.

Lemma compare_sums_by_position_witness :
  ∃ s, @compare Sample.arith false [sample_table 5; sample_table 9]
         [sample_code "007"; sample_code "009"]
         [sample_code "009"; sample_code "007"] = Ok s.
Proof.
  destruct (@compare_sums_by_position Sample.arith false
              [sample_table 5; sample_table 9]
              [sample_code "007"; sample_code "009"]
              [sample_code "009"; sample_code "007"])
    as (entries & _ & _ & Hrun).
  - intros [|[|i]] ai Hai; [| |discriminate]; injection Hai as <-.
    + exists (sample_code "009"), (sample_table 5).
      split; [reflexivity|]. split; [reflexivity|]. split; [reflexivity|].
      split; [cbn; lia|]. split.
      * unfold total, sample_table. cbn [data rows cols sample_code].
        rewrite length_replicate. lia.
      * vm_compute. discriminate.
    + exists (sample_code "007"), (sample_table 9).
      split; [reflexivity|]. split; [reflexivity|]. split; [reflexivity|].
      split; [cbn; lia|]. split.
      * unfold total, sample_table. cbn [data rows cols sample_code].
        rewrite length_replicate. lia.
      * vm_compute. discriminate.
  - eauto.
Defined.

(** C2, as stated, fails.  The second quantizer of a process (identity
    1) encodes the origin as the code [0]; its table, in slot 1 of the
    registry, has 9 in all its entries, so the sum of the claim for two
    such codes is 9.  [compare] returns 5 in bayesian mode and
    [-log(5 + 1)] otherwise: it sums the table in slot 0, which is that
    of the first quantizer.  With slot 0 still empty, comparing the two
    codes is undefined. *)
Lemma compare_sums_table_of_first_quantizer :
  @project Sample.arith sample_second Sample.origin = Ok (sample_code "000")
  ∧ index sample_second = 1
  ∧ [sample_table 5; sample_table 9] !! index sample_second = Some (sample_table 9)
  ∧ data (sample_table 9) !! (0 * (256 * 256) + (0 * 256 + 0)) = Some 9%Z
  ∧ @compare Sample.arith true [sample_table 5; sample_table 9]
      [sample_code "000"] [sample_code "000"] = Ok 5%Z
  ∧ @compare Sample.arith false [sample_table 5; sample_table 9]
      [sample_code "000"] [sample_code "000"] = Ok (- Z.log2 (5 + 1))%Z
  ∧ (- Z.log2 (5 + 1) ≠ - Z.log2 (9 + 1))%Z
  ∧ @compare Sample.arith false [Mat_empty; sample_table 9]
      [sample_code "000"] [sample_code "000"] = Undefined.
Proof. repeat split; by vm_compute. Qed.

(** ** Encoding *)

Section Encode.
Context `{AR : Arith}.
Implicit Types (q : ProductQuantizationTransform) (c m : Mat float).

Lemma uchar_to_nat (b : nat) : b < 256 → Byte.to_nat (uchar b) = b.
Proof.
  intros Hb. unfold uchar, uchar_of_N.
  rewrite N.mod_small by lia.
  rewrite Byte.of_N_via_nat, Nnat.Nat2N.id.
  destruct (Byte.of_nat b) as [y|] eqn:E.
  - by apply Byte.to_of_nat.
  - apply Byte.of_nat_None_iff in E. lia.
Qed.

(** The scan ends on one of the indices it went through, or on 0. *)
Lemma scan_index (d : nat → double) (idx : list nat) (s : nat * double) :
  (foldl (nearer d) s idx).1 = s.1 ∨ (foldl (nearer d) s idx).1 ∈ idx.
Proof.
  revert s. induction idx as [|j idx IH]; intros s; cbn [foldl]; [by left|].
  destruct (IH (nearer d s j)) as [H|H].
  - rewrite H. unfold nearer. destruct (dlt (d j) s.2); cbn [fst].
    + right. constructor.
    + by left.
  - right. by constructor.
Qed.

Lemma scan_lt_256 (d : nat → double) : (scan d (seq 0 256)).1 < 256.
Proof.
  unfold scan. destruct (scan_index d (seq 0 256) (0, dmax)) as [->| H].
  - cbn [fst]. lia.
  - apply elem_of_seq in H. lia.
Qed.

(** With a strict order on distances, the scan keeps the least distance
    seen so far: nothing seen is below the best distance, and the best
    distance is that of the best index once anything was below the
    initial bound. *)
Section Nearest.
Hypothesis dlt_irrefl : ∀ x : double, dlt x x = false.
Hypothesis dlt_trans : ∀ x y z : double, dlt x y = true → dlt y z = true → dlt x z = true.

Lemma nearer_scanned d seen s j :
  scanned d seen s → scanned d (seen ++ [j]) (nearer d s j).
Proof.
  intros [Hmin Hbest]. unfold nearer.
  destruct (dlt (d j) s.2) eqn:E.
  - split; cbn [fst snd].
    + intros k Hk. apply elem_of_app in Hk as [Hk|Hk].
      * destruct (dlt (d k) (d j)) eqn:E'; [|done].
        rewrite <- (Hmin k Hk). symmetry. by eapply dlt_trans.
      * apply list_elem_of_singleton in Hk as ->. apply dlt_irrefl.
    + right. split; [|done]. apply elem_of_app. right. constructor.
  - split.
    + intros k Hk. apply elem_of_app in Hk as [Hk|Hk]; [by apply Hmin|].
      by apply list_elem_of_singleton in Hk as ->.
    + destruct Hbest as [->|[H1 H2]]; [by left|].
      right. split; [|done]. apply elem_of_app. by left.
Qed.

Lemma foldl_scanned d idx seen s :
  scanned d seen s → scanned d (seen ++ idx) (foldl (nearer d) s idx).
Proof.
  revert seen s. induction idx as [|j idx IH]; intros seen s H; cbn [foldl].
  - by rewrite app_nil_r.
  - replace (seen ++ j :: idx) with ((seen ++ [j]) ++ idx) by (by rewrite <- app_assoc).
    apply IH. by apply nearer_scanned.
Qed.

Lemma scan_nearest d idx :
  (∃ k, k ∈ idx ∧ dlt (d k) dmax = true) →
  ∀ k, k ∈ idx → dlt (d k) (d (scan d idx).1) = false.
Proof.
  intros (k0 & Hk0 & Hlt) k Hk.
  destruct (foldl_scanned d idx [] (0, dmax)) as [Hmin Hbest].
  { split; [intros ? H; by apply elem_of_nil in H|by left]. }
  cbn [app] in *. fold (scan d idx) in *.
  destruct Hbest as [E|[_ E]].
  - specialize (Hmin k0 Hk0). rewrite E in Hmin. cbn [snd] in Hmin. congruence.
  - rewrite <- E. by apply Hmin.
Qed.

End Nearest.

(** [getIndex] is the scan over the 256 centers. *)
Lemma getIndex_scan m c :
  rows c = 256 → rows m = 1 → cols m = cols c →
  getIndex m c = Ok (scan (center_distance m c) (seq 0 256)).1.
Proof.
  intros Hc Hm Hcols. unfold getIndex, scan.
  rewrite (forM_pure _ (nearer (center_distance m c))).
  - ostep. by destruct (foldl _ _ _).
  - intros j [bi bd] Hj. apply elem_of_seq in Hj.
    rewrite row_Ok by lia. ostep. unfold norm.
    rewrite decide_True by (cbn [center_row rows cols]; done). ostep.
    unfold nearer, center_distance. cbn [snd]. by destruct (dlt _ _).
Qed.

Lemma subvector_shape q src i :
  rows (subvector q src i) = 1 ∧ cols (subvector q src i) = Z.to_nat (n q).
Proof. unfold subvector, colRange, as_row. cbn [rows cols]. split; [done|]. lia. Qed.

(** [reshape(1, 1)] succeeds on a matrix of one row and on a matrix
    that has an element, and gives the elements as one row. *)
Lemma reshape_1_1_Ok src :
  rows src = 1 ∨ 0 < total src → reshape_1_1 src = Ok (as_row src).
Proof.
  intros H. unfold reshape_1_1, as_row.
  destruct (decide (rows src = 1)) as [E|E].
  - destruct src as [r c d]. cbn [rows] in E. subst r.
    unfold total. cbn [rows cols data]. do 2 f_equal. lia.
  - rewrite decide_False by lia. done.
Qed.

(** It raises on the other matrices: those without element that are not
    one row. *)
Lemma reshape_1_1_Raise src :
  rows src ≠ 1 → total src = 0 → reshape_1_1 src = Raise.
Proof.
  intros H1 H0. unfold reshape_1_1.
  by rewrite decide_False, decide_True by done.
Qed.

(** A vector that fills a subspace has an element. *)
Lemma code_length_pos q D i : (0 < n q)%Z → i < code_length q D → 0 < D.
Proof.
  unfold code_length. intros Hn Hi.
  destruct (decide (D = 0)) as [->|]; [|lia].
  rewrite Z.quot_0_l in Hi by lia. cbn in Hi. lia.
Qed.

(** Encoding a vector with a trained quantizer: every byte is the result
    of the scan of its subspace. *)
Lemma project_spec q src :
  (0 < n q)%Z →
  rows src = 1 ∨ 0 < total src →
  trained q (total src) →
  ∃ code,
    project q src = Ok (mkMat 1 (code_length q (total src)) code)
    ∧ length code = code_length q (total src)
    ∧ ∀ i, i < code_length q (total src) →
        ∃ c, centers q !! i = Some c
          ∧ code !! i
            = Some (uchar (scan (center_distance (subvector q src i) c) (seq 0 256)).1).
Proof.
  intros Hn Hsrc Htr. unfold project.
  rewrite reshape_1_1_Ok by done. unfold as_row. ostep. cbn [cols].
  rewrite decide_False by lia.
  rewrite decide_False by (apply Zle_not_lt, Z.quot_pos; lia).
  fold (code_length q (total src)).
  destruct (forM_inv
    (fun t (code : list byte) =>
       length code = code_length q (total src)
       ∧ ∀ i, i < t →
           ∃ c, centers q !! i = Some c
             ∧ code !! i
               = Some (uchar (scan (center_distance (subvector q src i) c) (seq 0 256)).1))
    (fun i code =>
       c ← deref (centers q !! i);
       b ← getIndex (colRange (mkMat 1 (total src) (data src))
                              (i * Z.to_nat (n q)) ((i + 1) * Z.to_nat (n q))) c;
       write code i (uchar b))
    (code_length q (total src)) 0
    (replicate (code_length q (total src)) indeterminate_uchar))
    as (code & Hrun & Hlen & Hcode).
  - split; [by rewrite length_replicate|]. intros; lia.
  - intros t code Ht [Hlen Hdone].
    destruct (Htr t ltac:(lia)) as (c & Hc & Hrows & Hcols).
    rewrite Hc. ostep.
    destruct (subvector_shape q src t) as [Hr Hw].
    fold (as_row src). fold (subvector q src t).
    rewrite getIndex_scan by congruence. ostep.
    rewrite write_Ok by lia. eexists. split; [done|].
    split; [by rewrite length_insert|].
    intros i Hi. destruct (decide (i = t)) as [->|Hne].
    + exists c. split; [done|]. by rewrite list_lookup_insert_eq by lia.
    + rewrite list_lookup_insert_ne by lia. apply Hdone. lia.
  - rewrite Hrun. ostep. exists code. split; [done|]. split; [done|].
    intros i Hi. apply Hcode. lia.
Qed.

(** C3: the code of a vector of dimension [D] has length [D/n], and each
    of its bytes lies in [0, 255].  The vector is a matrix of one row,
    or any matrix that has an element: [reshape] takes no other. *)
Theorem project_length_and_range q src :
  (0 < n q)%Z →
  rows src = 1 ∨ 0 < total src →
  trained q (total src) →
  ∃ code,
    project q src = Ok code
    ∧ rows code = 1
    ∧ cols code = Z.to_nat (Z.quot (Z.of_nat (total src)) (n q))
    ∧ length (data code) = Z.to_nat (Z.quot (Z.of_nat (total src)) (n q))
    ∧ Forall (fun b => 0 ≤ Byte.to_nat b ≤ 255) (data code).
Proof.
  intros Hn Hsrc Htr.
  destruct (project_spec q src Hn Hsrc Htr) as (code & Hrun & Hlen & _).
  eexists. split; [exact Hrun|]. cbn [rows cols data].
  split; [done|]. split; [done|]. split; [done|].
  apply Forall_forall. intros b _. pose proof (Byte.to_nat_bounded b). lia.
Qed.

(** C4, as the code has it: the byte of every subspace is the index of a
    center at least Euclidean distance from the sub-vector (provided some
    center lies below the largest finite [double]), found by the linear
    scan; the configured base distance plays no part in it. *)
Theorem project_nearest_L2 q src i :
  (∀ x : double, dlt x x = false) →
  (∀ x y z : double, dlt x y = true → dlt y z = true → dlt x z = true) →
  (0 < n q)%Z →
  trained q (total src) →
  i < code_length q (total src) →
  (∃ code c b,
     project q src = Ok code
     ∧ centers q !! i = Some c
     ∧ data code !! i = Some b
     ∧ Byte.to_nat b < 256
     ∧ ((∃ k, k < 256 ∧ dlt (center_distance (subvector q src i) c k) dmax = true) →
        ∀ k, k < 256 →
          dlt (center_distance (subvector q src i) c k)
              (center_distance (subvector q src i) c (Byte.to_nat b)) = false))
  ∧ ∀ d, project (set_distance q d) src = project q src.
Proof.
  intros Hirr Htrans Hn Htr Hi. split; [|done].
  assert (rows src = 1 ∨ 0 < total src) as Hsrc
    by (right; by eapply code_length_pos).
  destruct (project_spec q src Hn Hsrc Htr) as (code & Hrun & Hlen & Hcode).
  destruct (Hcode i Hi) as (c & Hc & Hb).
  eexists _, c, _. split; [exact Hrun|]. split; [done|].
  cbn [data]. split; [exact Hb|].
  pose proof (scan_lt_256 (center_distance (subvector q src i) c)) as Hlt.
  rewrite uchar_to_nat by done. split; [done|].
  intros (k0 & Hk0 & Hlt0) k Hk.
  apply (scan_nearest Hirr Htrans).
  - exists k0. split; [apply elem_of_seq; lia|done].
  - apply elem_of_seq. lia.
Qed.

End Encode.

(** Training leaves a quantizer trained for the dimension of its samples,
    when clustering gives centers of the width of the subspace. *)
Lemma train_gives_trained `{AR : Arith} `{CV : !OpenCV} `{CM : !Common}
    (q : ProductQuantizationTransform) LUTs X labels :
  bayesian q = false →
  (0 < n q)%Z →
  Z.rem (Z.of_nat (cols X)) (n q) = 0%Z →
  index q < length LUTs →
  (∀ i, i < subspaces q X →
     ∃ lbl c, kmeans (subspace q X i) 256 = Ok (lbl, c) ∧ rows c = 256
       ∧ cols c = cols (subspace q X i)) →
  ∃ q' LUTs', train q LUTs X labels = Ok (q', LUTs') ∧ n q' = n q ∧ trained q' (cols X).
Proof.
  intros Hb Hn Hrem Hidx Hk.
  destruct (train_spec q LUTs X labels (codebook q X)
              (fun i => trained_entry q labels (assignment q X i) (codebook q X i))
              Hn Hrem Hidx) as (cs & buf & Hrun & _ & Hcs & _).
  - intros i Hi. destruct (Hk i Hi) as (lbl & c & Hkm & Hc & _).
    destruct (codebook_eq _ _ _ _ _ Hkm) as [-> ->].
    apply _train_raw; [done..|]. nia.
  - eexists _, _. split; [exact Hrun|]. split; [done|].
    intros i Hi. change (i < subspaces q X) in Hi.
    destruct (Hk i Hi) as (lbl & c & Hkm & Hc & Hw).
    destruct (codebook_eq _ _ _ _ _ Hkm) as [Ec _].
    exists c. cbn [set_centers centers n]. rewrite Hcs, Ec by done.
    split; [done|]. split; [done|]. rewrite Hw.
    unfold subspace, colRange. cbn [cols]. lia.
Qed.

Lemma sample_coder_trained : @trained Sample.arith Sample.coder (total Sample.origin).
Proof.
  intros i Hi. change (i < 1) in Hi. assert (i = 0) as -> by lia.
  exists Sample.centers0. split; [reflexivity|]. split; reflexivity.
Qed.

Lemma project_length_and_range_witness :
  ∃ code, @project Sample.arith Sample.coder Sample.origin = Ok code
    ∧ length (data code) = 1.
Proof.
  destruct (@project_length_and_range Sample.arith Sample.coder Sample.origin)
    as (code & Hrun & _ & _ & Hlen & _).
  - reflexivity.
  - left. reflexivity.
  - apply sample_coder_trained.
  - exists code. split; [exact Hrun|exact Hlen].
Defined.

(** C4, as stated, fails: with the city-block distance configured, the
    origin is encoded as center 0 = (3, 4), at Euclidean distance 5 and
    city-block distance 7, although center 1 = (0, 6) is nearer in the
    configured distance (6), being farther in the Euclidean one (6). *)
Lemma project_ignores_configured_distance :
  @project Sample.arith Sample.coder Sample.origin = Ok (mkMat 1 1 ["000"%byte])
  ∧ distance Sample.coder = Sample.L1
  ∧ (distance Sample.coder (@subvector Sample.arith Sample.coder Sample.origin 0)
       (@center_row Sample.arith Sample.centers0 1)
     < distance Sample.coder (@subvector Sample.arith Sample.coder Sample.origin 0)
         (@center_row Sample.arith Sample.centers0 0))%Z.
Proof. split; [by vm_compute|]. split; [done|]. by vm_compute. Qed.

Lemma project_nearest_L2_witness :
  ∃ code, @project Sample.arith Sample.coder Sample.origin = Ok code.
Proof.
  destruct (@project_nearest_L2 Sample.arith Sample.coder Sample.origin 0)
    as [(code & c & b & Hrun & _) _].
  - intros x. apply Z.ltb_irrefl.
  - intros x y z Hxy Hyz. apply Z.ltb_lt in Hxy, Hyz. apply Z.ltb_lt. lia.
  - reflexivity.
  - apply sample_coder_trained.
  - change (0 < 1). lia.
  - eauto.
Defined.

(** ** Storing and loading *)

Section StoreLoad.
Context `{AR : Arith} `{MC : !MatCodec}.
Implicit Types (q : ProductQuantizationTransform) (LUTs : list (Mat float)).

Lemma uchar_of_N_to_N (x : N) : Byte.to_N (uchar_of_N x) = (x mod 256)%N.
Proof.
  unfold uchar_of_N.
  destruct (Byte.of_N (x mod 256)) as [y|] eqn:E.
  - by apply Byte.to_of_N.
  - apply Byte.of_N_None_iff in E. pose proof (N.mod_upper_bound x 256). lia.
Qed.

Lemma get_put_u32 (x : N) (rest : list byte) :
  (x < 4294967296)%N → get_u32 (put_u32 x ++ rest) = Some (x, rest).
Proof.
  intros Hx. unfold put_u32, get_u32. cbn [app].
  rewrite !uchar_of_N_to_N. do 2 f_equal.
  zify. Z.to_euclidean_division_equations. lia.
Qed.

Section RoundTrip.
Hypothesis round_trip : MatCodec_round_trip.

Lemma get_put_Mats (l : list (Mat float)) (rest : list byte) :
  get_Mats (length l) (put_Mats l ++ rest) = Some (l, rest).
Proof.
  induction l as [|m l IH]; [done|].
  cbn [length put_Mats get_Mats]. rewrite <- app_assoc.
  by rewrite round_trip, IH.
Qed.

Lemma get_put_QList (l : list (Mat float)) (rest : list byte) :
  (N.of_nat (length l) < 4294967296)%N →
  get_QList (put_QList l ++ rest) = Some (l, rest).
Proof.
  intros Hl. unfold get_QList, put_QList. rewrite <- app_assoc.
  rewrite get_put_u32 by done. rewrite Nnat.Nat2N.id. apply get_put_Mats.
Qed.

End RoundTrip.

(** Encoding depends on the subspace width and the centers only, and
    comparing on the registry only. *)
Lemma project_ext q1 q2 src :
  n q1 = n q2 → centers q1 = centers q2 → project q1 src = project q2 src.
Proof.
  destruct q1, q2. cbn [n centers]. intros -> ->. reflexivity.
Qed.

(** Loading what a quantizer stored puts its centers into the loading
    quantizer and its table into the slot of the loading quantizer. *)
Lemma store_load_restores q LUTs q2 LUTs2 lut :
  MatCodec_round_trip →
  LUTs !! index q = Some lut →
  (N.of_nat (length (centers q)) < 4294967296)%N →
  index q2 < length LUTs2 →
  store q LUTs = Ok (put_QList (centers q) ++ put_Mat lut)
  ∧ load q2 LUTs2 (put_QList (centers q) ++ put_Mat lut)
    = Ok (set_centers q2 (centers q), <[index q2 := lut]> LUTs2, []).
Proof.
  intros Hrt Hlut Hlen Hi2. split.
  - unfold store. rewrite Hlut. done.
  - unfold load. rewrite get_put_QList by done. ostep.
    rewrite <- (app_nil_r (put_Mat lut)), Hrt. ostep.
    by rewrite decide_True.
Qed.

(** C8, as the code has it: the stream holds the centers and the table
    of the storing quantizer, not its subspace width nor its identity.
    Loading puts the centers into the loading quantizer and the table
    into the slot of the loading quantizer, and leaves the other slots
    as they are.  Vectors are then encoded to the same codes when the
    loading quantizer has the subspace width of the storing one; two
    templates get the same score when the registry holds the same tables
    as before at the positions of their matrices (slot 0 for one code),
    as it does when the loading quantizer has the identity of the storing
    one and the other slots hold the same tables. *)
Theorem store_load_restores_codes_and_scores q LUTs q2 LUTs2 lut :
  MatCodec_round_trip →
  LUTs !! index q = Some lut →
  (N.of_nat (length (centers q)) < 4294967296)%N →
  index q2 < length LUTs2 →
  ∃ stream q' LUTs',
    store q LUTs = Ok stream
    ∧ load q2 LUTs2 stream = Ok (q', LUTs', [])
    ∧ centers q' = centers q
    ∧ LUTs' !! index q2 = Some lut
    ∧ (∀ i, i ≠ index q2 → LUTs' !! i = LUTs2 !! i)
    ∧ (n q2 = n q → ∀ src, project q' src = project q src)
    ∧ (∀ a b : list (Mat byte),
         (∀ i, i < length a → LUTs' !! i = LUTs !! i) →
         ∀ bayesian, compare bayesian LUTs' a b = compare bayesian LUTs a b)
    ∧ (index q2 = index q → length LUTs2 = length LUTs →
       (∀ i, i ≠ index q → LUTs2 !! i = LUTs !! i) →
       LUTs' = LUTs).
Proof.
  intros Hrt Hlut Hlen Hi2.
  destruct (store_load_restores q LUTs q2 LUTs2 lut Hrt Hlut Hlen Hi2) as [Hs Hl].
  exists (put_QList (centers q) ++ put_Mat lut), (set_centers q2 (centers q)),
    (<[index q2 := lut]> LUTs2).
  split; [exact Hs|]. split; [exact Hl|]. split; [done|].
  split; [by apply list_lookup_insert_eq|].
  split; [intros i Hi; by apply list_lookup_insert_ne|].
  split; [intros Hn src; by apply project_ext|].
  split; [intros a b Hab bayesian; by apply compare_registry_ext|].
  intros Hi HL Hrest. rewrite Hi. apply list_eq. intros i.
  destruct (decide (i = index q)) as [->|Hne].
  - rewrite list_lookup_insert_eq by lia. done.
  - rewrite list_lookup_insert_ne by done. by apply Hrest.
Qed.

End StoreLoad.

Lemma store_load_restores_codes_and_scores_witness :
  ∃ stream q' LUTs',
    @store Sample.arith Sample.codec Sample.coder [sample_table 5] = Ok stream
    ∧ @load Sample.arith Sample.codec
        (mkPQ Sample.arith 2%Z Sample.L2 true 0 [Mat_empty; Mat_empty])
        [Mat_empty] stream = Ok (q', LUTs', [])
    ∧ centers q' = [Sample.centers0]
    ∧ LUTs' = [sample_table 5]
    ∧ @project Sample.arith q' Sample.origin = Ok (sample_code "000")
    ∧ @compare Sample.arith true LUTs' [sample_code "007"] [sample_code "009"] = Ok 5%Z.
Proof.
  destruct (@store_load_restores_codes_and_scores Sample.arith Sample.codec
              Sample.coder [sample_table 5]
              (mkPQ Sample.arith 2%Z Sample.L2 true 0 [Mat_empty; Mat_empty])
              [Mat_empty] (sample_table 5))
    as (stream & q' & LUTs' & Hs & Hl & Hc & _ & _ & Hp & Hcmp & Hall).
  - apply sample_codec_round_trip.
  - reflexivity.
  - vm_compute. reflexivity.
  - cbn. lia.
  - assert (HL : LUTs' = [sample_table 5]).
    { apply Hall; [reflexivity|reflexivity|].
      intros [|i] Hi; [done|reflexivity]. }
    exists stream, q', LUTs'. split; [exact Hs|]. split; [exact Hl|].
    split; [exact Hc|]. split; [exact HL|]. split.
    + rewrite Hp by reflexivity. by vm_compute.
    + rewrite (Hcmp [sample_code "007"] [sample_code "009"]).
      * by vm_compute.
      * intros i Hi. by rewrite HL.
Defined.

(** C8, as stated, fails.  The second quantizer of a process (identity
    1), trained, is stored and then loaded in a process where no
    quantizer was trained, into the quantizer of the same identity and
    subspace width: its centers and its table are restored and it encodes
    as before, yet the score of two of its codes, 5 before, is undefined
    after, slot 0 of the registry being empty there.  Loaded into a
    quantizer configured with subspace width 1, it no longer encodes the
    origin: the code [0] before, an exception after. *)
Lemma store_load_changes_scores :
  ∃ stream q' LUTs' q1' LUTs1',
    @store Sample.arith Sample.codec sample_second
      [sample_table 5; sample_table 9] = Ok stream
    ∧ @load Sample.arith Sample.codec
        (mkPQ Sample.arith 2%Z Sample.L2 false 1 []) [Mat_empty; Mat_empty] stream
      = Ok (q', LUTs', [])
    ∧ centers q' = centers sample_second
    ∧ LUTs' !! 1 = Some (sample_table 9)
    ∧ @project Sample.arith sample_second Sample.origin = Ok (sample_code "000")
    ∧ @project Sample.arith q' Sample.origin = Ok (sample_code "000")
    ∧ @compare Sample.arith true [sample_table 5; sample_table 9]
        [sample_code "000"] [sample_code "000"] = Ok 5%Z
    ∧ @compare Sample.arith true LUTs' [sample_code "000"] [sample_code "000"] = Undefined
    ∧ @load Sample.arith Sample.codec
        (mkPQ Sample.arith 1%Z Sample.L2 false 1 []) [Mat_empty; Mat_empty] stream
      = Ok (q1', LUTs1', [])
    ∧ @project Sample.arith q1' Sample.origin = Raise.
Proof.
  destruct (@store_load_restores Sample.arith Sample.codec sample_second
              [sample_table 5; sample_table 9]
              (mkPQ Sample.arith 2%Z Sample.L2 false 1 []) [Mat_empty; Mat_empty]
              (sample_table 9) sample_codec_round_trip)
    as [Hs Hl]; [reflexivity|by vm_compute|cbn; lia|].
  destruct (@store_load_restores Sample.arith Sample.codec sample_second
              [sample_table 5; sample_table 9]
              (mkPQ Sample.arith 1%Z Sample.L2 false 1 []) [Mat_empty; Mat_empty]
              (sample_table 9) sample_codec_round_trip)
    as [_ Hl1]; [reflexivity|by vm_compute|cbn; lia|].
  eexists _, _, _, _, _. split; [exact Hs|]. split; [exact Hl|].
  split; [reflexivity|]. split; [reflexivity|].
  split; [by vm_compute|]. split; [by vm_compute|].
  split; [by vm_compute|]. split; [by vm_compute|].
  split; [exact Hl1|]. by vm_compute.
Qed.

(** ** Use before training *)

Section Untrained.
Context `{AR : Arith}.
Implicit Types (q : ProductQuantizationTransform) (LUTs : list (Mat float)).

Lemma bind_no_diagnostic {A B} (m : outcome A) (f : A → outcome B) :
  no_diagnostic m → (∀ a, no_diagnostic (f a)) → no_diagnostic (m ≫= f).
Proof.
  intros Hm Hf msg. destruct m as [a| msg' | |]; cbn [mbind outcome_bind]; try done.
  - apply Hf.
  - exfalso. by apply (Hm msg').
Qed.

Lemma forM_no_diagnostic {St} (body : nat → St → outcome St) (idx : list nat) (s : St) :
  (∀ i s, no_diagnostic (body i s)) → no_diagnostic (forM idx body s).
Proof. intros Hb msg. apply forM_not_Fatal. intros i s'. apply Hb. Qed.

Lemma deref_no_diagnostic {A} (o : option A) : no_diagnostic (deref o).
Proof. by destruct o. Qed.

Lemma row_no_diagnostic {A} (m : Mat A) j : no_diagnostic (row m j).
Proof. unfold row. by case_decide. Qed.

Lemma write_no_diagnostic {A} (l : list A) p v : no_diagnostic (write l p v).
Proof. unfold write. by case_decide. Qed.

Lemma norm_no_diagnostic (m c : Mat float) : no_diagnostic (norm m c).
Proof. unfold norm. by case_decide. Qed.

Lemma getIndex_no_diagnostic (m c : Mat float) : no_diagnostic (getIndex m c).
Proof.
  unfold getIndex. apply bind_no_diagnostic.
  - apply forM_no_diagnostic. intros j [bi bd].
    apply bind_no_diagnostic; [apply row_no_diagnostic|]. intros cj.
    apply bind_no_diagnostic; [apply norm_no_diagnostic|]. done.
  - by intros [bi bd].
Qed.

Lemma reshape_1_1_no_diagnostic (src : Mat float) : no_diagnostic (reshape_1_1 src).
Proof. unfold reshape_1_1. case_decide; [done|]. by case_decide. Qed.

Lemma project_no_diagnostic q src : no_diagnostic (project q src).
Proof.
  unfold project. apply bind_no_diagnostic; [apply reshape_1_1_no_diagnostic|].
  intros m. case_decide; [done|]. case_decide; [done|].
  apply bind_no_diagnostic; [|done].
  apply forM_no_diagnostic. intros i code.
  apply bind_no_diagnostic; [apply deref_no_diagnostic|]. intros c.
  apply bind_no_diagnostic; [apply getIndex_no_diagnostic|]. intros b.
  apply write_no_diagnostic.
Qed.

Lemma compare_no_diagnostic bayesian LUTs (a b : list (Mat byte)) :
  no_diagnostic (compare bayesian LUTs a b).
Proof.
  unfold compare. apply bind_no_diagnostic; [|done].
  apply forM_no_diagnostic. intros i dist.
  apply bind_no_diagnostic; [apply deref_no_diagnostic|]. intros ai.
  apply bind_no_diagnostic; [apply deref_no_diagnostic|]. intros bi.
  apply bind_no_diagnostic; [apply deref_no_diagnostic|]. intros lut.
  apply forM_no_diagnostic. intros j dist'.
  apply bind_no_diagnostic; [apply deref_no_diagnostic|]. intros x.
  apply bind_no_diagnostic; [apply deref_no_diagnostic|]. intros y.
  case_decide; [|done].
  apply bind_no_diagnostic; [apply deref_no_diagnostic|]. done.
Qed.

(** A quantizer without centers encoding a vector of at least [n]
    components reads its empty list of centers out of range. *)
Lemma project_untrained q src :
  centers q = [] → (0 < n q)%Z → (n q ≤ Z.of_nat (total src))%Z →
  project q src = Undefined.
Proof.
  intros Hc Hn Hsrc. unfold project.
  rewrite reshape_1_1_Ok by lia. unfold as_row. ostep. cbn [cols].
  rewrite decide_False by lia.
  assert (1 ≤ Z.quot (Z.of_nat (total src)) (n q))%Z as Hq.
  { apply Z.quot_le_lower_bound; lia. }
  rewrite decide_False by lia.
  destruct (Z.to_nat (Z.of_nat (total src) ÷ n q)) as [|k] eqn:E; [lia|].
  cbn [seq forM replicate]. rewrite Hc. done.
Qed.

(** A vector of fewer than [n] components has a code of no byte: no
    center is looked at. *)
Lemma project_short q src :
  rows src = 1 ∨ 0 < total src →
  (Z.of_nat (total src) < n q)%Z → project q src = Ok (mkMat 1 0 []).
Proof.
  intros Hsrc Hn. unfold project.
  rewrite reshape_1_1_Ok by done. unfold as_row. ostep. cbn [cols].
  rewrite decide_False by lia.
  rewrite Z.quot_small by lia.
  rewrite decide_False by lia. done.
Qed.

(** Two templates without matrix: no table is looked at. *)
Lemma compare_nil bayesian LUTs (b : list (Mat byte)) :
  compare bayesian LUTs [] b
  = Ok (if bayesian then fzero else fneg (flog (fadd fzero fone))).
Proof. unfold compare. cbn [length seq forM]. ostep. by destruct bayesian. Qed.

(** Two templates compared against an empty table: the first entry is
    read through a null pointer. *)
Lemma compare_untrained bayesian LUTs (ai : Mat byte) (a b : list (Mat byte)) :
  LUTs !! 0 = Some Mat_empty → 0 < total ai →
  compare bayesian LUTs (ai :: a) b = Undefined.
Proof.
  intros Hlut Hai. unfold compare. cbn [length seq forM].
  change ((ai :: a) !! 0) with (Some ai). ostep.
  destruct (b !! 0) as [bi|]; [|done]. ostep.
  rewrite Hlut. ostep.
  destruct (total ai) as [|k]; [lia|]. cbn [seq forM].
  destruct (data ai !! 0) as [x|]; [|done]. ostep.
  destruct (data bi !! 0) as [y|]; [|done]. ostep.
  case_decide; [|done]. cbn [data Mat_empty]. rewrite lookup_nil. done.
Qed.

(** C9, as the code has it: encoding and comparing carry no check that
    the quantizer was trained or loaded, and never abort with a
    diagnostic.  On a quantizer that has no centers, encoding a vector of
    at least [n] components is undefined; against an empty table,
    comparing non-empty codes is undefined.  Encoding a vector of fewer
    than [n] components and comparing two templates without matrix
    return, trained or not. *)
Theorem untrained_use_unchecked :
  (∀ q src, no_diagnostic (project q src))
  ∧ (∀ bayesian LUTs a b, no_diagnostic (compare bayesian LUTs a b))
  ∧ (∀ q src, centers q = [] → (0 < n q)%Z → (n q ≤ Z.of_nat (total src))%Z →
       project q src = Undefined)
  ∧ (∀ bayesian LUTs (ai : Mat byte) a b,
       LUTs !! 0 = Some Mat_empty → 0 < total ai →
       compare bayesian LUTs (ai :: a) b = Undefined)
  ∧ (∀ q src, rows src = 1 ∨ 0 < total src → (Z.of_nat (total src) < n q)%Z →
       project q src = Ok (mkMat 1 0 []))
  ∧ (∀ bayesian LUTs b,
       compare bayesian LUTs [] b
       = Ok (if bayesian then fzero else fneg (flog (fadd fzero fone)))).
Proof.
  split; [apply project_no_diagnostic|]. split; [apply compare_no_diagnostic|].
  split; [apply project_untrained|]. split; [apply compare_untrained|].
  split; [apply project_short|apply compare_nil].
Qed.

End Untrained.

Lemma untrained_use_unchecked_witness :
  @project Sample.arith Sample.fresh.1 Sample.origin = Undefined
  ∧ @compare Sample.arith false Sample.fresh.2
      [mkMat 1 1 ["007"%byte]] [mkMat 1 1 ["009"%byte]] = Undefined.
Proof.
  destruct (@untrained_use_unchecked Sample.arith) as (_ & _ & Hp & Hc & _). split.
  - apply Hp; [reflexivity|reflexivity|]. vm_compute. discriminate.
  - apply Hc; [reflexivity|]. cbn. lia.
Defined.

(** C9, as stated, fails: on the first quantizer of a process, as
    constructed, encoding a vector and comparing two codes are undefined
    and print no diagnostic; encoding a vector shorter than [n] and
    comparing two empty templates even return. *)
Lemma untrained_use_is_not_reported :
  @project Sample.arith Sample.fresh.1 Sample.origin = Undefined
  ∧ @compare Sample.arith false Sample.fresh.2
      [mkMat 1 1 ["007"%byte]] [mkMat 1 1 ["009"%byte]] = Undefined
  ∧ @project Sample.arith Sample.fresh.1 (mkMat 1 1 [5%Z]) = Ok (mkMat 1 0 [])
  ∧ @compare Sample.arith false Sample.fresh.2 [] [] = Ok 0%Z.
Proof. repeat split; by vm_compute. Qed.

(** ** Sample runs *)

Example uchar_keeps_a_byte : Byte.to_nat (uchar 200) = 200.
Proof. reflexivity. Qed.

Example uchar_wraps : Byte.to_nat (uchar 300) = 44.
Proof. reflexivity. Qed.

Example put_u32_258 : put_u32 258 = ["000"; "000"; "001"; "002"]%byte.
Proof. reflexivity. Qed.

Example colRange_2x4 :
  colRange (mkMat 2 4 [1; 2; 3; 4; 5; 6; 7; 8]) 2 4 = mkMat 2 2 [3; 4; 7; 8].
Proof. reflexivity. Qed.

Example row_2x4 :
  row (mkMat 2 4 [1; 2; 3; 4; 5; 6; 7; 8]) 1 = Ok (mkMat 1 4 [5; 6; 7; 8])
  ∧ row (mkMat 2 4 [1; 2; 3; 4; 5; 6; 7; 8]) 2 = Raise.
Proof. split; reflexivity. Qed.

Example construct_twice :
  map index (@construct_all Sample.arith
               [(2%Z, Sample.L2, false); (4%Z, Sample.L1, true)] []).1 = [0; 1]
  ∧ (@construct_all Sample.arith
       [(2%Z, Sample.L2, false); (4%Z, Sample.L1, true)] []).2 = [Mat_empty; Mat_empty].
Proof. split; reflexivity. Qed.

Example getIndex_origin :
  @getIndex Sample.arith (@subvector Sample.arith Sample.coder Sample.origin 0)
    Sample.centers0 = Ok 0.
Proof. by vm_compute. Qed.

Example store_sample :
  @store Sample.arith Sample.codec
    (mkPQ Sample.arith 2%Z Sample.L2 false 0 [mkMat 1 2 [3; -4]%Z])
    [mkMat 1 1 [2%Z]]
  = Ok ["000"; "000"; "000"; "001";
        "001"; "000"; "001"; "001"; "000"; "001"; "001"; "000";
        "000"; "001"; "001"; "001"; "000";
        "001"; "001"; "001"; "001"; "001"; "000";
        "001"; "000"; "001"; "000"; "001"; "000"; "000"; "001"; "001"; "000"]%byte.
Proof. by vm_compute. Qed.

(** The score of two codes depends on the first slot of the registry
    only: [compare] takes the table by the position of the matrix in the
    template. *)
Lemma compare_reads_slot_by_position `{AR : Arith} bayesian
    (LUTs1 LUTs2 : list (Mat float)) (a b : Mat byte) :
  LUTs1 !! 0 = LUTs2 !! 0 →
  compare bayesian LUTs1 [a] [b] = compare bayesian LUTs2 [a] [b].
Proof.
  intros H. unfold compare. cbn [length seq forM].
  change ([a] !! 0) with (Some a). change ([b] !! 0) with (Some b).
  ostep. by rewrite H.
Qed.

(** * Further properties *)

(** ** More on loops *)

Lemma forM_app {St} (body : nat → St → outcome St) (l1 l2 : list nat) (s : St) :
  forM (l1 ++ l2) body s = forM l1 body s ≫= forM l2 body.
Proof.
  revert s. induction l1 as [|i l1 IH]; intros s; cbn [app forM]; [done|].
  destruct (body i s); cbn [mbind outcome_bind]; [apply IH|done..].
Qed.

(** A relation that every step of a loop respects holds between the
    state before the loop and the state it returns. *)
Lemma forM_preserves {St} (R : St → St → Prop) (body : nat → St → outcome St)
    (idx : list nat) (s s' : St) :
  (∀ s, R s s) →
  (∀ s1 s2 s3, R s1 s2 → R s2 s3 → R s1 s3) →
  (∀ i s s', i ∈ idx → body i s = Ok s' → R s s') →
  forM idx body s = Ok s' → R s s'.
Proof.
  intros Hrefl Htrans. revert s. induction idx as [|i idx IH]; intros s Hb; cbn [forM].
  - intros [= ->]. apply Hrefl.
  - destruct (body i s) as [s1| | |] eqn:E; cbn [mbind outcome_bind]; try discriminate.
    intros H. apply (Htrans _ s1).
    + apply (Hb i); [constructor|done].
    + apply IH; [|done]. intros. eapply Hb; [by constructor|done].
Qed.

(** A loop does not return when one of its steps cannot, whatever state
    the steps before it left. *)
Lemma forM_fails {St} (P : St → Prop) (body : nat → St → outcome St)
    (idx : list nat) (i0 : nat) (s : St) :
  P s →
  (∀ i s s', i ∈ idx → P s → body i s = Ok s' → P s') →
  i0 ∈ idx →
  (∀ s, P s → ¬ returns (body i0 s)) →
  ¬ returns (forM idx body s).
Proof.
  revert s. induction idx as [|i idx IH]; intros s HP Hstep Hi0 Hfail.
  - by apply elem_of_nil in Hi0.
  - cbn [forM]. destruct (body i s) as [s1| | |] eqn:E; cbn [mbind outcome_bind];
      try (by intros [? ?]).
    apply elem_of_cons in Hi0 as [->|Hi0].
    + exfalso. apply (Hfail s HP). rewrite E. by eexists.
    + apply IH; [|intros; eapply Hstep; [by constructor|done..]|done..].
      eapply Hstep; [constructor|done..].
Qed.

Lemma bind_returns_or_undefined {A B} (m : outcome A) (f : A → outcome B) :
  returns_or_undefined m → (∀ a, returns_or_undefined (f a)) →
  returns_or_undefined (m ≫= f).
Proof.
  intros [->|[a ->]] Hf; cbn [mbind outcome_bind]; [by left|apply Hf].
Qed.

Lemma forM_returns_or_undefined {St} (body : nat → St → outcome St)
    (idx : list nat) (s : St) :
  (∀ i s, returns_or_undefined (body i s)) → returns_or_undefined (forM idx body s).
Proof.
  intros Hb. revert s. induction idx as [|i idx IH]; intros s; cbn [forM].
  - right. by eexists.
  - apply bind_returns_or_undefined; [apply Hb|apply IH].
Qed.

Lemma deref_returns_or_undefined {A} (o : option A) : returns_or_undefined (deref o).
Proof. destruct o; [right; by eexists|by left]. Qed.

Lemma write_returns_or_undefined {A} (l : list A) p v :
  returns_or_undefined (write l p v).
Proof. unfold write. case_decide; [right; by eexists|by left]. Qed.

Lemma not_returns_undefined {A} (o : outcome A) :
  returns_or_undefined o → ¬ returns o → o = Undefined.
Proof. intros [->|H] Hn; [done|by destruct Hn]. Qed.

(** ** What training touches *)

Section Frame.
Context `{AR : Arith} `{CV : !OpenCV} `{CM : !Common}.
Implicit Types (q : ProductQuantizationTransform) (c : Mat float) (buf : list float).

Lemma same_outside_refl {A} base (buf : list A) : same_outside base buf buf.
Proof. by split. Qed.

Lemma same_outside_trans {A} base (b1 b2 b3 : list A) :
  same_outside base b1 b2 → same_outside base b2 b3 → same_outside base b1 b3.
Proof.
  intros [Hl1 H1] [Hl2 H2]. split; [congruence|].
  intros p Hp. rewrite H2, H1 by done. done.
Qed.

Lemma write_same_outside {A} base (buf buf' : list A) j k v :
  j < 256 → k < 256 →
  write buf (base + (j * 256 + k)) v = Ok buf' → same_outside base buf buf'.
Proof.
  intros Hj Hk. unfold write. case_decide; [|discriminate]. intros [= <-].
  split; [by rewrite length_insert|]. intros p Hp.
  rewrite list_lookup_insert_ne by lia. done.
Qed.

(** The two nested loops of a row respect [same_outside] when every
    step does. *)
Lemma row_loops_same_outside {A} base (body : nat → nat → list A → outcome (list A))
    (buf buf' : list A) :
  (∀ j k b b', j < 256 → k < 256 → body j k b = Ok b' → same_outside base b b') →
  forM (seq 0 256) (fun j b => forM (seq 0 256) (fun k b => body j k b) b) buf = Ok buf' →
  same_outside base buf buf'.
Proof.
  intros Hbody. apply forM_preserves.
  - apply same_outside_refl.
  - apply same_outside_trans.
  - intros j b b' Hj. apply elem_of_seq in Hj. apply forM_preserves.
    + apply same_outside_refl.
    + apply same_outside_trans.
    + intros k b1 b2 Hk. apply elem_of_seq in Hk. apply Hbody; lia.
Qed.

Lemma fill_raw_same_outside d c base buf buf' :
  fill_raw d c base buf = Ok buf' → same_outside base buf buf'.
Proof.
  apply row_loops_same_outside. intros j k b b' Hj Hk.
  destruct (row c j); cbn [mbind outcome_bind]; try discriminate.
  destruct (row c k); cbn [mbind outcome_bind]; try discriminate.
  by apply write_same_outside.
Qed.

Lemma calibrate_same_outside g i hG hI base buf buf' :
  calibrate g i hG hI base buf = Ok buf' → same_outside base buf buf'.
Proof.
  apply row_loops_same_outside. intros j k b b' Hj Hk.
  destruct (b !! _); cbn [deref mbind outcome_bind]; try discriminate.
  by apply write_same_outside.
Qed.

(** X1: whatever the clustering, the samples and the mode, a call of
    [_train] that returns has written inside the [256*256] entries of its
    own row only: the buffer keeps its length and every entry outside
    the row. *)
Theorem _train_writes_own_row q X labels base buf buf' c :
  _train q X labels base buf = Ok (buf', c) →
  length buf' = length buf
  ∧ ∀ p, p < base ∨ base + 256 * 256 ≤ p → buf' !! p = buf !! p.
Proof.
  unfold _train. intros H.
  destruct (kmeans X 256) as [[lbl c0]| | |]; cbn [mbind outcome_bind] in H; try discriminate.
  destruct (fill_raw (distance q) c0 base buf) as [buf1| | |] eqn:E1;
    cbn [mbind outcome_bind] in H; try discriminate.
  apply fill_raw_same_outside in E1.
  destruct (bayesian q); cbn [negb] in H.
  - case_decide; [|discriminate].
    destruct (collect_scores lbl labels base buf1) as [[g im]| | |];
      cbn [mbind outcome_bind] in H; try discriminate.
    destruct (calibrate _ _ _ _ base buf1) as [buf2| | |] eqn:E2;
      cbn [mbind outcome_bind] in H; try discriminate.
    apply calibrate_same_outside in E2. injection H as <- <-.
    apply (same_outside_trans _ _ _ _ E1 E2).
  - injection H as <- <-. exact E1.
Qed.

End Frame.

Lemma sample_subspace_trains :
  ∃ buf' c,
    @_train Sample.arith Sample.opencv Sample.common Sample.fresh.1
      (@subspace Sample.arith Sample.fresh.1 Sample.samples 1) Sample.two_classes
      (1 * (256 * 256)) (replicate (2 * (256 * 256)) 0%Z) = Ok (buf', c).
Proof.
  destruct (sample_clusters Sample.fresh.1 1) as (lbl & c & Hkm & Hc & _).
  destruct (@_train_raw Sample.arith Sample.opencv Sample.common Sample.fresh.1
              (@subspace Sample.arith Sample.fresh.1 Sample.samples 1) Sample.two_classes
              (2 * (256 * 256)) (1 * (256 * 256)) lbl c)
    with (buf := replicate (2 * (256 * 256)) 0%Z) as (buf' & Hrun & _);
    [reflexivity|exact Hkm|exact Hc|lia|by rewrite length_replicate|].
  eauto.
Qed.

Lemma _train_writes_own_row_witness :
  ∃ buf' c,
    @_train Sample.arith Sample.opencv Sample.common Sample.fresh.1
      (@subspace Sample.arith Sample.fresh.1 Sample.samples 1) Sample.two_classes
      (1 * (256 * 256)) (replicate (2 * (256 * 256)) 0%Z) = Ok (buf', c)
    ∧ buf' !! 0 = Some 0%Z.
Proof.
  destruct sample_subspace_trains as (buf' & c & Hrun).
  destruct (@_train_writes_own_row Sample.arith Sample.opencv Sample.common
              _ _ _ _ _ _ _ Hrun) as [_ Hout].
  exists buf', c. split; [exact Hrun|].
  rewrite Hout by (left; lia). reflexivity.
Defined.

(** ** What training leaves in the quantizer and the registry *)

Section TrainResult.
Context `{AR : Arith} `{CV : !OpenCV} `{CM : !Common}.
Implicit Types (q : ProductQuantizationTransform) (LUTs : list (Mat float)).

Lemma train_loop_shape q X labels lutrows buf cs buf' cs' :
  train_loop q X labels lutrows (buf, cs) = Ok (buf', cs') →
  length buf' = length buf
  ∧ length cs' = length cs
  ∧ ∀ i, lutrows ≤ i → cs' !! i = cs !! i.
Proof.
  unfold train_loop.
  apply (forM_preserves
    (fun (s s' : list float * list (Mat float)) =>
       length s'.1 = length s.1 ∧ length s'.2 = length s.2
       ∧ ∀ i, lutrows ≤ i → s'.2 !! i = s.2 !! i)).
  - done.
  - intros s1 s2 s3 (H1 & H2 & H3) (H4 & H5 & H6). split; [congruence|].
    split; [congruence|]. intros i Hi. rewrite H6, H3 by done. done.
  - intros i [b c] [b' c'] Hi Hrun. apply elem_of_seq in Hi.
    destruct (_train q _ labels _ b) as [[b1 c1]| | |] eqn:E;
      cbn [mbind outcome_bind] in Hrun; try discriminate.
    injection Hrun as <- <-. cbn [fst snd].
    destruct (_train_writes_own_row _ _ _ _ _ _ _ E) as [Hl _].
    split; [done|]. split; [by rewrite length_insert|].
    intros k Hk. by rewrite list_lookup_insert_ne by lia.
Qed.

(** X2: a training that returns keeps the four settings of the
    quantizer, appends [D/n] entries to its list of centers without
    clearing it (the entries from [D/n] on are those the list had, then
    empty matrices), and puts a [D/n] by [256*256] matrix with all its
    entries in the registry slot of the quantizer. *)
Theorem train_appends_centers q LUTs X labels q' LUTs' :
  train q LUTs X labels = Ok (q', LUTs') →
  n q' = n q ∧ distance q' = distance q ∧ bayesian q' = bayesian q ∧ index q' = index q
  ∧ length (centers q') = length (centers q) + subspaces q X
  ∧ (∀ i, subspaces q X ≤ i →
       centers q' !! i = (centers q ++ replicate (subspaces q X) Mat_empty) !! i)
  ∧ ∃ lut, LUTs' !! index q = Some lut
      ∧ rows lut = subspaces q X
      ∧ cols lut = 256 * 256
      ∧ length (data lut) = subspaces q X * (256 * 256).
Proof.
  unfold train. intros H.
  repeat case_decide; try discriminate.
  fold (subspaces q X) in H.
  destruct (train_loop q X labels _ _) as [[buf cs]| | |] eqn:E; try discriminate.
  cbn [mbind outcome_bind] in H.
  apply train_loop_shape in E as (Hl & Hlc & Hrest).
  rewrite length_replicate in Hl. rewrite length_app, length_replicate in Hlc.
  set (lut := mkMat _ _ buf) in *.
  injection H as <- <-. cbn [set_centers n distance bayesian index centers].
  repeat (split; [done|]).
  exists lut. split; [by apply list_lookup_insert_eq|]. done.
Qed.

(** X3: the score of two codes is read from registry slot 0 whatever
    quantizer made them, so training a quantizer of another identity
    changes no such score; while slot 0 is still empty, comparing two
    non-empty codes stays undefined after that training. *)
Theorem train_other_identity_keeps_scores q LUTs X labels q' LUTs' :
  train q LUTs X labels = Ok (q', LUTs') →
  index q ≠ 0 →
  (∀ bayesian (a b : Mat byte),
     compare bayesian LUTs' [a] [b] = compare bayesian LUTs [a] [b])
  ∧ (LUTs !! 0 = Some Mat_empty →
     ∀ bayesian (a b : Mat byte), 0 < total a →
       compare bayesian LUTs' [a] [b] = Undefined).
Proof.
  intros Hrun Hidx.
  destruct (train_frame _ _ _ _ _ _ Hrun) as (_ & lut & -> & _).
  assert (H0 : <[index q := lut]> LUTs !! 0 = LUTs !! 0)
    by (by apply list_lookup_insert_ne).
  split.
  - intros bay a b. by apply compare_reads_slot_by_position.
  - intros Hempty bay a b Ha. apply compare_untrained; [|done]. by rewrite H0.
Qed.

End TrainResult.

Lemma sample_training_returns_for (q : @ProductQuantizationTransform Sample.arith)
    (LUTs : list (Mat Z)) :
  n q = 2%Z → bayesian q = false → index q < length LUTs →
  ∃ q' LUTs',
    @train Sample.arith Sample.opencv Sample.common
      q LUTs Sample.samples Sample.two_classes = Ok (q', LUTs').
Proof.
  intros Hn Hb Hi.
  destruct (@train_spec Sample.arith Sample.opencv Sample.common
              q LUTs Sample.samples Sample.two_classes
              (@codebook Sample.arith Sample.opencv q Sample.samples)
              (fun i => @trained_entry Sample.arith Sample.common q Sample.two_classes
                          (@assignment Sample.arith Sample.opencv q Sample.samples i)
                          (@codebook Sample.arith Sample.opencv q Sample.samples i)))
    as (cs & buf & Hrun & _).
  - rewrite Hn. reflexivity.
  - rewrite Hn. reflexivity.
  - exact Hi.
  - intros i Hi'. destruct (sample_clusters q i) as (lbl & c & Hkm & Hc & _).
    destruct (@codebook_eq Sample.arith Sample.opencv _ _ _ _ _ Hkm) as [-> ->].
    apply (@_train_raw Sample.arith Sample.opencv Sample.common); [done..|].
    rewrite sample_subspaces in * by done. lia.
  - eauto.
Qed.

Lemma train_appends_centers_witness :
  ∃ q' LUTs',
    @train Sample.arith Sample.opencv Sample.common
      Sample.coder [Mat_empty] Sample.samples Sample.two_classes = Ok (q', LUTs')
    ∧ length (centers q') = 3.
Proof.
  destruct (sample_training_returns_for Sample.coder [Mat_empty])
    as (q' & LUTs' & Hrun); [reflexivity|reflexivity|cbn; lia|].
  destruct (@train_appends_centers Sample.arith Sample.opencv Sample.common
              _ _ _ _ _ _ Hrun) as (_ & _ & _ & _ & Hlen & _).
  exists q', LUTs'. split; [exact Hrun|].
  rewrite Hlen. rewrite sample_subspaces by reflexivity. reflexivity.
Defined.

Lemma train_other_identity_keeps_scores_witness :
  ∃ q' LUTs',
    @train Sample.arith Sample.opencv Sample.common
      (mkPQ Sample.arith 2%Z Sample.L2 false 1 []) [Mat_empty; Mat_empty]
      Sample.samples Sample.two_classes = Ok (q', LUTs')
    ∧ @compare Sample.arith false LUTs'
        [mkMat 1 2 ["000"; "001"]%byte] [mkMat 1 2 ["002"; "003"]%byte] = Undefined.
Proof.
  destruct (sample_training_returns_for
              (mkPQ Sample.arith 2%Z Sample.L2 false 1 []) [Mat_empty; Mat_empty])
    as (q' & LUTs' & Hrun); [reflexivity|reflexivity|cbn; lia|].
  destruct (@train_other_identity_keeps_scores Sample.arith Sample.opencv Sample.common
              _ _ _ _ _ _ Hrun) as [_ Hundef].
  - cbn. lia.
  - exists q', LUTs'. split; [exact Hrun|]. apply Hundef; [reflexivity|].
    cbn. lia.
Defined.

(** ** More on comparing *)

Section CompareMore.
Context `{AR : Arith}.
Implicit Types (LUTs : list (Mat float)) (lut : Mat float).

Lemma compare_returns_or_undefined bayesian LUTs (a b : list (Mat byte)) :
  returns_or_undefined (compare bayesian LUTs a b).
Proof.
  unfold compare. apply bind_returns_or_undefined; [|right; by eexists].
  apply forM_returns_or_undefined. intros i dist.
  apply bind_returns_or_undefined; [apply deref_returns_or_undefined|]. intros ai.
  apply bind_returns_or_undefined; [apply deref_returns_or_undefined|]. intros bi.
  apply bind_returns_or_undefined; [apply deref_returns_or_undefined|]. intros lut.
  apply forM_returns_or_undefined. intros j dist'.
  apply bind_returns_or_undefined; [apply deref_returns_or_undefined|]. intros x.
  apply bind_returns_or_undefined; [apply deref_returns_or_undefined|]. intros y.
  case_decide; [|by left].
  apply bind_returns_or_undefined; [apply deref_returns_or_undefined|].
  intros v. right. by eexists.
Qed.

(** X4: [compare] walks the matrices of its first template: matrices
    that the second template has beyond them are ignored, and a second
    template with fewer matrices is indexed out of range. *)
Theorem compare_template_lengths bayesian LUTs (a b : list (Mat byte)) :
  (length a ≤ length b →
   ∀ extra, compare bayesian LUTs a (b ++ extra) = compare bayesian LUTs a b)
  ∧ (length b < length a → compare bayesian LUTs a b = Undefined).
Proof.
  split.
  - intros Hlen extra. unfold compare. f_equal.
    apply forM_ext. intros i dist Hi. apply elem_of_seq in Hi.
    by rewrite lookup_app_l by lia.
  - intros Hlen. apply not_returns_undefined; [apply compare_returns_or_undefined|].
    unfold compare. intros [s Hs].
    destruct (forM _ _ _) as [d| | |] eqn:E; cbn [mbind outcome_bind] in Hs;
      try discriminate.
    eapply (forM_fails (fun _ => True) _ _ (length b)); [done|done| | |by eexists].
    + apply elem_of_seq. lia.
    + intros dist _ [r Hr].
      destruct (lookup_lt_is_Some_2 a (length b) Hlen) as [ai Hai].
      rewrite Hai in Hr. cbn [deref mbind outcome_bind] in Hr.
      rewrite (lookup_ge_None_2 b (length b)) in Hr by lia. discriminate.
Qed.

(** X5: on a table that is symmetric in the two bytes, the score of two
    codes of one length does not depend on their order, whether the
    reads stay inside the table or not. *)
Theorem compare_symmetric bayesian LUTs lut (a b : Mat byte) :
  LUTs !! 0 = Some lut →
  total a = total b →
  symmetric_table lut (total a) →
  compare bayesian LUTs [a] [b] = compare bayesian LUTs [b] [a].
Proof.
  intros Hlut Htot Hsym. unfold compare. f_equal. cbn [length seq forM].
  change ([a] !! 0) with (Some a). change ([b] !! 0) with (Some b).
  cbn [deref mbind outcome_bind]. rewrite Hlut. cbn [deref mbind outcome_bind].
  f_equal. rewrite <- Htot. apply forM_ext. intros j dist Hj. apply elem_of_seq in Hj.
  destruct (data a !! j) as [x|], (data b !! j) as [y|];
    cbn [deref mbind outcome_bind]; try done.
  pose proof (Byte.to_nat_bounded x). pose proof (Byte.to_nat_bounded y).
  replace (j * 256 * 256 + Byte.to_nat x * 256 + Byte.to_nat y)
    with (j * (256 * 256) + (Byte.to_nat x * 256 + Byte.to_nat y)) by lia.
  replace (j * 256 * 256 + Byte.to_nat y * 256 + Byte.to_nat x)
    with (j * (256 * 256) + (Byte.to_nat y * 256 + Byte.to_nat x)) by lia.
  rewrite (Hsym j (Byte.to_nat x) (Byte.to_nat y)) by lia.
  repeat case_decide; try done; unfold INT_MAX in *; lia.
Qed.

End CompareMore.

Lemma compare_template_lengths_witness :
  @compare Sample.arith false [Mat_empty]
    [mkMat 1 1 ["007"%byte]; mkMat 1 1 ["008"%byte]] [mkMat 1 1 ["009"%byte]]
  = Undefined.
Proof.
  apply (@compare_template_lengths Sample.arith). cbn. lia.
Defined.

Lemma compare_symmetric_witness :
  @compare Sample.arith false [mkMat 1 (256 * 256) (replicate (256 * 256) 5%Z)]
    [mkMat 1 1 ["007"%byte]] [mkMat 1 1 ["009"%byte]]
  = @compare Sample.arith false [mkMat 1 (256 * 256) (replicate (256 * 256) 5%Z)]
      [mkMat 1 1 ["009"%byte]] [mkMat 1 1 ["007"%byte]].
Proof.
  apply (@compare_symmetric Sample.arith false _
           (mkMat 1 (256 * 256) (replicate (256 * 256) 5%Z))).
  - reflexivity.
  - reflexivity.
  - intros i x y Hi Hx Hy. cbn [data].
    rewrite !lookup_replicate_2; [done| |]; change (total _) with 1 in Hi; lia.
Defined.

(** ** Training, then encoding and comparing *)

Section EndToEnd.
Context `{AR : Arith} `{CV : !OpenCV} `{CM : !Common}.
Implicit Types (q : ProductQuantizationTransform) (LUTs : list (Mat float)).

(** Training in either mode, when clustering keeps its contract. *)
Lemma train_spec_modes q LUTs X labels :
  (0 < n q)%Z →
  Z.rem (Z.of_nat (cols X)) (n q) = 0%Z →
  index q < length LUTs →
  (Z.of_nat (rows X * rows X) ≤ INT_MAX)%Z →
  rows X ≤ length labels →
  (∀ i, i < subspaces q X →
     ∃ lbl c, kmeans (subspace q X i) 256 = Ok (lbl, c) ∧ rows c = 256
       ∧ Forall (fun a => a < 256) lbl ∧ length lbl = rows X) →
  ∃ cs buf,
    train q LUTs X labels
      = Ok (set_centers q cs, <[index q := mkMat (subspaces q X) (256 * 256) buf]> LUTs)
    ∧ (∀ i, i < subspaces q X → cs !! i = Some (codebook q X i))
    ∧ (∀ i j k, i < subspaces q X → j < 256 → k < 256 →
         buf !! (i * (256 * 256) + (j * 256 + k))
           = Some (trained_entry q labels (assignment q X i) (codebook q X i) j k)).
Proof.
  intros Hn Hrem Hidx Hov Hlab Hk.
  destruct (train_spec q LUTs X labels (codebook q X)
              (fun i => trained_entry q labels (assignment q X i) (codebook q X i))
              Hn Hrem Hidx) as (cs & buf & Hrun & _ & Hcs & Hin).
  - intros i Hi. destruct (Hk i Hi) as (lbl & c & Hkm & Hc & Hlbl & Hlen).
    destruct (codebook_eq _ _ _ _ _ Hkm) as [-> ->].
    destruct (bayesian q) eqn:Hb.
    + apply _train_bayesian; [done..|lia|done|nia].
    + apply _train_raw; [done..|]. nia.
  - exists cs, buf. done.
Qed.

Lemma trained_entry_symmetric q labels lbl c j k :
  (∀ a b, distance q a b = distance q b a) →
  trained_entry q labels lbl c j k = trained_entry q labels lbl c k j.
Proof.
  intros Hsym. unfold trained_entry, raw_table.
  by rewrite (Hsym (center_row c j) (center_row c k)).
Qed.

(** X6: with a symmetric base distance, the table that training leaves
    is symmetric in the two center indices, in the raw and in the
    calibrated mode. *)
Theorem train_table_symmetric q LUTs X labels :
  (∀ a b, distance q a b = distance q b a) →
  (0 < n q)%Z →
  Z.rem (Z.of_nat (cols X)) (n q) = 0%Z →
  index q < length LUTs →
  (Z.of_nat (rows X * rows X) ≤ INT_MAX)%Z →
  rows X ≤ length labels →
  (∀ i, i < subspaces q X →
     ∃ lbl c, kmeans (subspace q X i) 256 = Ok (lbl, c) ∧ rows c = 256
       ∧ Forall (fun a => a < 256) lbl ∧ length lbl = rows X) →
  ∃ q' LUTs' lut,
    train q LUTs X labels = Ok (q', LUTs')
    ∧ LUTs' !! index q = Some lut
    ∧ symmetric_table lut (subspaces q X).
Proof.
  intros Hsym Hn Hrem Hidx Hov Hlab Hk.
  destruct (train_spec_modes q LUTs X labels Hn Hrem Hidx Hov Hlab Hk)
    as (cs & buf & Hrun & _ & Hin).
  eexists _, _, _. split; [exact Hrun|].
  split; [by apply list_lookup_insert_eq|].
  intros i x y Hi Hx Hy. cbn [data]. rewrite !Hin by done.
  f_equal. by apply trained_entry_symmetric.
Qed.

Lemma table_is_complete (buf : list float) (S : nat) :
  (∀ i j k, i < S → j < 256 → k < 256 →
     is_Some (buf !! (i * (256 * 256) + (j * 256 + k)))) →
  S * (256 * 256) ≤ length buf.
Proof.
  intros H. destruct S as [|S']; [lia|].
  specialize (H S' 255 255 ltac:(lia) ltac:(lia) ltac:(lia)).
  apply lookup_lt_is_Some_1 in H. lia.
Qed.

(** X7: after the first quantizer of a process (identity 0) was trained
    without calibration on samples of dimension [D], any two vectors of
    dimension [D] are encoded and their codes compared without failure. *)
Theorem train_encode_compare q LUTs X labels :
  bayesian q = false →
  index q = 0 →
  0 < length LUTs →
  (0 < n q)%Z →
  Z.rem (Z.of_nat (cols X)) (n q) = 0%Z →
  (Z.of_nat (subspaces q X) ≤ 32768)%Z →
  (∀ i, i < subspaces q X →
     ∃ lbl c, kmeans (subspace q X i) 256 = Ok (lbl, c) ∧ rows c = 256
       ∧ cols c = cols (subspace q X i)) →
  ∃ q' LUTs',
    train q LUTs X labels = Ok (q', LUTs')
    ∧ ∀ bayes v1 v2, total v1 = cols X → total v2 = cols X →
        rows v1 = 1 ∨ 0 < total v1 → rows v2 = 1 ∨ 0 < total v2 →
        ∃ c1 c2 score,
          project q' v1 = Ok c1 ∧ project q' v2 = Ok c2
          ∧ compare bayes LUTs' [c1] [c2] = Ok score.
Proof.
  intros Hb Hi0 HL Hn Hrem Hmax Hk.
  destruct (train_spec q LUTs X labels (codebook q X)
              (fun i => trained_entry q labels (assignment q X i) (codebook q X i))
              Hn Hrem ltac:(lia)) as (cs & buf & Hrun & _ & Hcs & Hin).
  { intros i Hi. destruct (Hk i Hi) as (lbl & c & Hkm & Hc & _).
    destruct (codebook_eq _ _ _ _ _ Hkm) as [-> ->].
    apply _train_raw; [done..|]. nia. }
  eexists _, _. split; [exact Hrun|].
  assert (Htr : trained (set_centers q cs) (cols X)).
  { intros i Hi. change (i < subspaces q X) in Hi.
    destruct (Hk i Hi) as (lbl & c & Hkm & Hc & Hw).
    destruct (codebook_eq _ _ _ _ _ Hkm) as [Ec _].
    exists c. cbn [set_centers centers n]. rewrite Hcs, Ec by done.
    split; [done|]. split; [done|]. rewrite Hw.
    unfold subspace, colRange. cbn [cols]. lia. }
  assert (Hbuf : subspaces q X * (256 * 256) ≤ length buf).
  { apply table_is_complete. intros i j k ? ? ?. rewrite Hin by done. by eexists. }
  intros bayes v1 v2 H1 H2 Hv1 Hv2.
  destruct (project_spec (set_centers q cs) v1) as (code1 & Hp1 & Hl1 & _);
    [done|done|by rewrite H1|].
  destruct (project_spec (set_centers q cs) v2) as (code2 & Hp2 & Hl2 & _);
    [done|done|by rewrite H2|].
  rewrite H1 in Hp1, Hl1. rewrite H2 in Hp2, Hl2.
  change (code_length (set_centers q cs) (cols X)) with (subspaces q X) in *.
  eexists _, _, _. split; [exact Hp1|]. split; [exact Hp2|].
  unfold compare. cbn [length seq forM].
  change ([?a] !! 0) with (Some a).
  cbn [deref mbind outcome_bind].
  rewrite Hi0. rewrite list_lookup_insert_eq by done. cbn [deref mbind outcome_bind].
  unfold total. cbn [rows cols].
  rewrite compare_code; [cbn [mbind outcome_bind]; done|cbn [data]; lia..].
Qed.

End EndToEnd.

Lemma sample_clusters_width q i :
  n q = 2%Z →
  ∃ lbl c, @kmeans Sample.arith Sample.opencv
             (@subspace Sample.arith q Sample.samples i) 256 = Ok (lbl, c)
    ∧ rows c = 256 ∧ cols c = cols (@subspace Sample.arith q Sample.samples i).
Proof.
  intros Hn. unfold subspace. rewrite Hn.
  eexists _, _. split; [reflexivity|]. split; reflexivity.
Qed.

Lemma sample_sq_dist_sym (a b : list Z) : Sample.sq_dist a b = Sample.sq_dist b a.
Proof.
  unfold Sample.sq_dist. revert b.
  induction a as [|x a IH]; intros [|y b]; cbn [zip_with foldr]; [done..|].
  rewrite IH. lia.
Qed.

Lemma train_table_symmetric_witness :
  ∃ q' LUTs' lut,
    @train Sample.arith Sample.opencv Sample.common
      Sample.fresh_bayesian.1 Sample.fresh_bayesian.2 Sample.samples Sample.two_classes
      = Ok (q', LUTs')
    ∧ LUTs' !! 0 = Some lut
    ∧ @symmetric_table Sample.arith lut 2.
Proof.
  apply (@train_table_symmetric Sample.arith Sample.opencv Sample.common
           Sample.fresh_bayesian.1 Sample.fresh_bayesian.2 Sample.samples
           Sample.two_classes).
  - intros a b. cbn [distance Sample.fresh_bayesian construct fst].
    unfold Sample.L2. f_equal. apply sample_sq_dist_sym.
  - reflexivity.
  - reflexivity.
  - cbn. lia.
  - vm_compute. discriminate.
  - unfold Sample.two_classes. rewrite length_map, length_seq. reflexivity.
  - intros i _. apply sample_clusters.
Defined.

Lemma train_encode_compare_witness :
  ∃ q' LUTs',
    @train Sample.arith Sample.opencv Sample.common
      Sample.fresh.1 Sample.fresh.2 Sample.samples Sample.two_classes = Ok (q', LUTs')
    ∧ ∃ c1 c2 score,
        @project Sample.arith q' (mkMat 1 4 [1; 2; 3; 4]%Z) = Ok c1
        ∧ @project Sample.arith q' (mkMat 1 4 [4; 3; 2; 1]%Z) = Ok c2
        ∧ @compare Sample.arith false LUTs' [c1] [c2] = Ok score.
Proof.
  destruct (@train_encode_compare Sample.arith Sample.opencv Sample.common
              Sample.fresh.1 Sample.fresh.2 Sample.samples Sample.two_classes)
    as (q' & LUTs' & Hrun & Huse).
  - reflexivity.
  - reflexivity.
  - cbn. lia.
  - reflexivity.
  - reflexivity.
  - vm_compute. discriminate.
  - intros i _. by apply sample_clusters_width.
  - exists q', LUTs'. split; [exact Hrun|].
    apply Huse; [reflexivity|reflexivity|left; reflexivity|left; reflexivity].
Defined.

(** ** More on encoding *)

Section EncodeMore.
Context `{AR : Arith}.
Implicit Types (q : ProductQuantizationTransform) (c m : Mat float).

(** The order of the distances [d 0 .. d (len-1)] that the scan needs:
    among them, and against the initial bound, [<] is a strict weak
    order.  Nothing is asked of the other values of [double]. *)
Section Ties.
Variable d : nat → double.
Variable len : nat.
Hypothesis d_irrefl : ∀ k, k < len → dlt (d k) (d k) = false.
Hypothesis d_trans : ∀ i j k, i < len → j < len → k < len →
  dlt (d i) (d j) = true → dlt (d j) (d k) = true → dlt (d i) (d k) = true.
Hypothesis d_cotrans : ∀ i j k, i < len → j < len → k < len →
  dlt (d i) (d j) = true → dlt (d i) (d k) = true ∨ dlt (d k) (d j) = true.
Hypothesis d_bound : ∀ i k, i < len → k < len →
  dlt (d i) dmax = true → dlt (d i) (d k) = true ∨ dlt (d k) dmax = true.

Lemma nearer_first_least seen s j :
  (∀ k, k ∈ seen → k < len) → j < len →
  first_least d seen s → first_least d (seen ++ [j]) (nearer d s j).
Proof.
  intros Hin Hj [[-> Hnone]|(pre & post & Hseen & Hbd & Hpre & Hpost)];
    unfold nearer; cbn [fst snd].
  - destruct (dlt (d j) dmax) eqn:E.
    + right. exists seen, []. cbn [fst snd]. split; [done|]. split; [done|]. split.
      * intros k Hk. destruct (d_bound j k Hj (Hin k Hk) E) as [H|H]; [done|].
        rewrite (Hnone k Hk) in H. discriminate.
      * intros k Hk. by apply elem_of_nil in Hk.
    + left. split; [done|]. intros k Hk. apply elem_of_app in Hk as [Hk|Hk]; [by apply Hnone|].
      by apply list_elem_of_singleton in Hk as ->.
  - assert (Hb : s.1 < len).
    { apply Hin. rewrite Hseen. apply elem_of_app. right. constructor. }
    rewrite Hbd. destruct (dlt (d j) (d s.1)) eqn:E.
    + right. exists seen, []. cbn [fst snd]. split; [done|]. split; [done|]. split.
      * intros k Hk. pose proof (Hin k Hk) as Hlt. rewrite Hseen in Hk.
        apply elem_of_app in Hk as [Hk|Hk].
        { apply (d_trans j s.1 k); [done..|]. by apply Hpre. }
        apply elem_of_cons in Hk as [->|Hk]; [done|].
        destruct (d_cotrans j s.1 k Hj Hb Hlt E) as [H|H]; [done|].
        rewrite (Hpost k Hk) in H. discriminate.
      * intros k Hk. by apply elem_of_nil in Hk.
    + right. exists pre, (post ++ [j]). split; [by rewrite Hseen, <- app_assoc|].
      split; [done|]. split; [done|].
      intros k Hk. apply elem_of_app in Hk as [Hk|Hk]; [by apply Hpost|].
      by apply list_elem_of_singleton in Hk as ->.
Qed.

Lemma foldl_first_least idx seen s :
  (∀ k, k ∈ seen ++ idx → k < len) →
  first_least d seen s → first_least d (seen ++ idx) (foldl (nearer d) s idx).
Proof.
  revert seen s. induction idx as [|j idx IH]; intros seen s Hin H; cbn [foldl].
  - by rewrite app_nil_r.
  - replace (seen ++ j :: idx) with ((seen ++ [j]) ++ idx) in * by (by rewrite <- app_assoc).
    apply IH; [done|]. apply nearer_first_least; [| |done].
    + intros k Hk. apply Hin. apply elem_of_app. left. apply elem_of_app. by left.
    + apply Hin. apply elem_of_app. left. apply elem_of_app. right. constructor.
Qed.

(** The scan over [0 .. len-1] ends on the first index of least distance. *)
Lemma scan_first_least :
  (∃ k, k < len ∧ dlt (d k) dmax = true) →
  (scan d (seq 0 len)).1 < len
  ∧ (∀ k, k < len → dlt (d k) (d (scan d (seq 0 len)).1) = false)
  ∧ (∀ k, k < (scan d (seq 0 len)).1 → dlt (d (scan d (seq 0 len)).1) (d k) = true).
Proof.
  intros (k0 & Hk0 & Hlt).
  destruct (foldl_first_least (seq 0 len) [] (0, dmax))
    as [[E Hnone]|(pre & post & Hseen & Hbd & Hpre & Hpost)].
  { cbn [app]. intros k Hk. apply elem_of_seq in Hk. lia. }
  { left. split; [done|]. intros ? H. by apply elem_of_nil in H. }
  { rewrite (Hnone k0) in Hlt; [discriminate|]. apply elem_of_seq. lia. }
  cbn [app] in *. fold (scan d (seq 0 len)) in *.
  set (b := (scan d (seq 0 len)).1) in *.
  assert (Hb : length pre = b ∧ b < len).
  { assert (H : seq 0 len !! length pre = Some b)
      by (rewrite Hseen; by rewrite list_lookup_middle).
    apply lookup_seq in H. lia. }
  destruct Hb as [Hlen Hb]. split; [done|]. split.
  - intros k Hk. assert (Hin : k ∈ seq 0 len) by (apply elem_of_seq; lia).
    rewrite Hseen in Hin. apply elem_of_app in Hin as [Hin|Hin].
    + destruct (dlt (d k) (d b)) eqn:E; [|done].
      rewrite <- (d_irrefl k Hk). symmetry.
      apply (d_trans k b k); [done..|]. by apply Hpre.
    + apply elem_of_cons in Hin as [->|Hin]; [by apply d_irrefl|by apply Hpost].
  - intros k Hk. apply Hpre.
    assert (H : seq 0 len !! k = Some k) by (apply lookup_seq; lia).
    rewrite Hseen, lookup_app_l in H by lia.
    by apply list_elem_of_lookup_2 in H.
Qed.

End Ties.

(** X8: when [<] is a strict weak order on the 256 distances of the
    vector to the centers and against the initial bound (as it is when no
    distance is NaN; nothing is asked of other values), and some center
    is below the largest finite [double], [getIndex] returns the first
    index of least distance: no center is nearer, and every center before
    it is strictly farther. *)
Theorem getIndex_first_nearest m c :
  (∀ k, k < 256 → dlt (center_distance m c k) (center_distance m c k) = false) →
  (∀ i j k, i < 256 → j < 256 → k < 256 →
     dlt (center_distance m c i) (center_distance m c j) = true →
     dlt (center_distance m c j) (center_distance m c k) = true →
     dlt (center_distance m c i) (center_distance m c k) = true) →
  (∀ i j k, i < 256 → j < 256 → k < 256 →
     dlt (center_distance m c i) (center_distance m c j) = true →
     dlt (center_distance m c i) (center_distance m c k) = true
     ∨ dlt (center_distance m c k) (center_distance m c j) = true) →
  (∀ i k, i < 256 → k < 256 →
     dlt (center_distance m c i) dmax = true →
     dlt (center_distance m c i) (center_distance m c k) = true
     ∨ dlt (center_distance m c k) dmax = true) →
  rows c = 256 → rows m = 1 → cols m = cols c →
  (∃ k, k < 256 ∧ dlt (center_distance m c k) dmax = true) →
  ∃ b, getIndex m c = Ok b
    ∧ b < 256
    ∧ (∀ k, k < 256 → dlt (center_distance m c k) (center_distance m c b) = false)
    ∧ (∀ k, k < b → dlt (center_distance m c b) (center_distance m c k) = true).
Proof.
  intros Hirr Htr Hco Hbd Hc Hm Hcols Hex.
  eexists. split; [by apply getIndex_scan|].
  by apply (scan_first_least (center_distance m c) 256).
Qed.

Lemma scan_nothing_below d idx :
  (∀ k, k ∈ idx → dlt (d k) dmax = false) → scan d idx = (0, dmax).
Proof.
  unfold scan. induction idx as [|j idx IH]; intros H; cbn [foldl]; [done|].
  unfold nearer at 2. cbn [snd]. rewrite H by constructor.
  apply IH. intros. apply H. by constructor.
Qed.

(** X9: when no center is below the largest finite [double] (every
    distance NaN or infinite), [getIndex] returns 0. *)
Theorem getIndex_nothing_below m c :
  rows c = 256 → rows m = 1 → cols m = cols c →
  (∀ k, k < 256 → dlt (center_distance m c k) dmax = false) →
  getIndex m c = Ok 0.
Proof.
  intros Hc Hm Hcols Hnone. rewrite getIndex_scan by done.
  rewrite scan_nothing_below; [done|].
  intros k Hk. apply elem_of_seq in Hk. apply Hnone. lia.
Qed.

(** X10: a vector with fewer than [n] components, given as one row or
    as any matrix that has an element, is encoded as the empty code, by
    any quantizer, trained or not.  A matrix without element that is not
    one row is refused by [reshape]: encoding it raises. *)
Theorem project_short_vector q src :
  (Z.of_nat (total src) < n q)%Z →
  (rows src = 1 ∨ 0 < total src → project q src = Ok (mkMat 1 0 []))
  ∧ (rows src ≠ 1 → total src = 0 → project q src = Raise).
Proof.
  intros Hlt. split.
  - intros Hsrc. by apply project_short.
  - intros H1 H0. unfold project. by rewrite reshape_1_1_Raise.
Qed.

(** X11: encoding a vector that has more subspaces than the quantizer
    has codebooks does not return: the list of centers is indexed past
    its end. *)
Theorem project_beyond_centers q src :
  (0 < n q)%Z →
  length (centers q) < code_length q (total src) →
  ¬ returns (project q src).
Proof.
  intros Hn Hlen. unfold project.
  rewrite reshape_1_1_Ok by (right; eapply code_length_pos; [done|exact Hlen]).
  unfold as_row. ostep. cbn [cols].
  rewrite decide_False by lia.
  rewrite decide_False by (apply Zle_not_lt, Z.quot_pos; lia).
  fold (code_length q (total src)).
  intros [code Hcode].
  destruct (forM _ _ _) as [buf| | |] eqn:E; cbn [mbind outcome_bind] in Hcode;
    try discriminate.
  eapply (forM_fails (fun _ => True) _ _ (length (centers q)));
    [done|done| | |by eexists].
  - apply elem_of_seq. lia.
  - intros s _ [r Hr]. rewrite (lookup_ge_None_2 (centers q)) in Hr by lia.
    discriminate.
Qed.

End EncodeMore.

Lemma sample_lt_cotrans (x y z : Z) :
  (x <? y)%Z = true → (x <? z)%Z = true ∨ (z <? y)%Z = true.
Proof.
  intros Hxy. apply Z.ltb_lt in Hxy.
  destruct (Z.lt_ge_cases x z) as [H|H]; [left; by apply Z.ltb_lt|].
  right. apply Z.ltb_lt. lia.
Qed.

(** In the arithmetic with a NaN, [<] is not a strict weak order on all
    the doubles: 0 < 1, yet NaN is neither above 0 nor below 1. *)
Example sample_with_nan_unordered :
  @dlt sample_with_nan (Some 0%Z) (Some 1%Z) = true
  ∧ @dlt sample_with_nan (Some 0%Z) None = false
  ∧ @dlt sample_with_nan None (Some 1%Z) = false.
Proof. done. Qed.

Lemma getIndex_first_nearest_witness :
  ∃ b, @getIndex sample_with_nan (mkMat 1 2 [0; 0]%Z) Sample.centers0 = Ok b
    ∧ b < 256.
Proof.
  destruct (@getIndex_first_nearest sample_with_nan
              (mkMat 1 2 [0; 0]%Z) Sample.centers0)
    as (b & Hrun & Hb & _).
  - intros k _. apply Z.ltb_irrefl.
  - intros i j k _ _ _ Hij Hjk. unfold center_distance in *.
    cbn [dlt norm_L2 sample_with_nan] in *.
    apply Z.ltb_lt in Hij, Hjk. apply Z.ltb_lt. lia.
  - intros i j k _ _ _ Hij. by apply sample_lt_cotrans.
  - intros i k _ _ Hi. by apply sample_lt_cotrans.
  - reflexivity.
  - reflexivity.
  - reflexivity.
  - exists 0. split; [lia|]. by vm_compute.
  - eauto.
Defined.

Lemma getIndex_nothing_below_witness :
  @getIndex sample_unordered (mkMat 1 2 [0; 0]%Z) Sample.centers0 = Ok 0.
Proof.
  apply (@getIndex_nothing_below sample_unordered); reflexivity.
Defined.

Lemma project_short_vector_witness :
  @project Sample.arith Sample.coder (mkMat 1 1 [5%Z]) = Ok (mkMat 1 0 [])
  ∧ @project Sample.arith Sample.coder (mkMat 3 0 []) = Raise.
Proof.
  split.
  - apply (@project_short_vector Sample.arith Sample.coder (mkMat 1 1 [5%Z])).
    + vm_compute. reflexivity.
    + left. reflexivity.
  - apply (@project_short_vector Sample.arith Sample.coder (mkMat 3 0 [])).
    + vm_compute. reflexivity.
    + cbn. lia.
    + reflexivity.
Defined.

Lemma project_beyond_centers_witness :
  ¬ returns (@project Sample.arith Sample.coder (mkMat 1 4 [1; 2; 3; 4]%Z)).
Proof.
  apply (@project_beyond_centers Sample.arith).
  - reflexivity.
  - change (1 < 2). lia.
Defined.

(** ** Failures of training *)

Section TrainFailures.
Context `{AR : Arith} `{CV : !OpenCV} `{CM : !Common}.
Implicit Types (q : ProductQuantizationTransform) (LUTs : list (Mat float)).

(** X12: when clustering raises on the first subspace (as OpenCV does
    with fewer than 256 samples), training raises too: no table is
    returned. *)
Theorem train_clustering_raises q LUTs X labels :
  (0 < n q)%Z →
  Z.rem (Z.of_nat (cols X)) (n q) = 0%Z →
  index q < length LUTs →
  0 < subspaces q X →
  kmeans (subspace q X 0) 256 = Raise →
  train q LUTs X labels = Raise.
Proof.
  intros Hn Hrem Hidx Hsub Hk. unfold train.
  rewrite decide_False by lia.
  rewrite decide_False by (intros H; apply H; exact Hrem).
  rewrite decide_True by done.
  rewrite decide_False by (apply Zle_not_lt, Z.quot_pos; lia).
  fold (subspaces q X). destruct (subspaces q X) as [|k]; [lia|].
  unfold train_loop. cbn [seq forM]. unfold _train.
  unfold subspace in Hk. rewrite Hk. reflexivity.
Qed.

(** X13: the divisibility check lets a negative subspace width through
    when it divides the dimensionality; training then fails in the
    constructor of the table, which gets a negative number of rows. *)
Theorem train_negative_width q LUTs X labels :
  (n q < 0)%Z →
  (- n q ≤ Z.of_nat (cols X))%Z →
  Z.rem (Z.of_nat (cols X)) (n q) = 0%Z →
  index q < length LUTs →
  train q LUTs X labels = Raise.
Proof.
  intros Hn Hcols Hrem Hidx. unfold train.
  rewrite decide_False by lia.
  rewrite decide_False by (intros H; apply H; exact Hrem).
  rewrite decide_True by done.
  rewrite decide_True; [done|].
  rewrite <- (Z.opp_involutive (n q)), Z.quot_opp_r by lia.
  pose proof (Z.quot_le_lower_bound (Z.of_nat (cols X)) (- n q) 1). lia.
Qed.

End TrainFailures.

Lemma train_clustering_raises_witness :
  @train Sample.arith Sample.opencv Sample.common Sample.fresh.1 Sample.fresh.2
    (mkMat 3 2 [1; 2; 3; 4; 5; 6]%Z) [0; 1; 0]%Z = Raise.
Proof.
  apply (@train_clustering_raises Sample.arith Sample.opencv Sample.common).
  - reflexivity.
  - reflexivity.
  - cbn. lia.
  - change (0 < 1). lia.
  - reflexivity.
Defined.

Lemma train_negative_width_witness :
  @train Sample.arith Sample.opencv Sample.common
    (mkPQ Sample.arith (-2)%Z Sample.L2 false 0 []) [Mat_empty]
    Sample.samples Sample.two_classes = Raise.
Proof.
  apply (@train_negative_width Sample.arith Sample.opencv Sample.common).
  - reflexivity.
  - vm_compute. discriminate.
  - reflexivity.
  - cbn. lia.
Defined.

(** ** Loading into another quantizer *)

(** X14: loading what a quantizer [q] stored into any constructed
    quantizer [q2] consumes the stream, replaces the centers of [q2] by
    those of [q] (they are not appended), keeps the settings and the
    identity of [q2], and puts the table of [q] into the slot of [q2],
    leaving the other slots alone. *)
Theorem load_into_other_quantizer `{AR : Arith} `{MC : !MatCodec}
    (q q2 : ProductQuantizationTransform) (LUTs LUTs2 : list (Mat float)) (lut : Mat float) :
  MatCodec_round_trip →
  LUTs !! index q = Some lut →
  (N.of_nat (length (centers q)) < 4294967296)%N →
  index q2 < length LUTs2 →
  ∃ stream q2' LUTs2',
    store q LUTs = Ok stream
    ∧ load q2 LUTs2 stream = Ok (q2', LUTs2', [])
    ∧ centers q2' = centers q
    ∧ n q2' = n q2 ∧ distance q2' = distance q2 ∧ bayesian q2' = bayesian q2
    ∧ index q2' = index q2
    ∧ LUTs2' !! index q2 = Some lut
    ∧ ∀ i, i ≠ index q2 → LUTs2' !! i = LUTs2 !! i.
Proof.
  intros Hrt Hlut Hlen Hi2.
  destruct (store_load_restores q LUTs q2 LUTs2 lut Hrt Hlut Hlen Hi2) as [Hs Hl].
  eexists _, _, _. split; [exact Hs|]. split; [exact Hl|].
  cbn [set_centers centers n distance bayesian index].
  repeat (split; [done|]). split; [by apply list_lookup_insert_eq|].
  intros i Hi. by apply list_lookup_insert_ne.
Qed.

Lemma load_into_other_quantizer_witness :
  ∃ stream q2' LUTs2',
    @store Sample.arith Sample.codec Sample.coder [mkMat 1 1 [2%Z]] = Ok stream
    ∧ @load Sample.arith Sample.codec
        (mkPQ Sample.arith 2%Z Sample.L2 true 1 [Mat_empty; Mat_empty])
        [Mat_empty; Mat_empty] stream = Ok (q2', LUTs2', [])
    ∧ centers q2' = [Sample.centers0]
    ∧ LUTs2' = [Mat_empty; mkMat 1 1 [2%Z]].
Proof.
  destruct (@load_into_other_quantizer Sample.arith Sample.codec Sample.coder
              (mkPQ Sample.arith 2%Z Sample.L2 true 1 [Mat_empty; Mat_empty])
              [mkMat 1 1 [2%Z]] [Mat_empty; Mat_empty] (mkMat 1 1 [2%Z]))
    as (stream & q2' & LUTs2' & Hs & Hl & Hc & _ & _ & _ & _ & Hslot & Hrest).
  - apply sample_codec_round_trip.
  - reflexivity.
  - vm_compute. reflexivity.
  - cbn. lia.
  - exists stream, q2', LUTs2'. split; [exact Hs|]. split; [exact Hl|].
    split; [exact Hc|].
    destruct (@load_frame Sample.arith Sample.codec _ _ _ _ _ _ Hl) as (_ & l & -> & _).
    cbn [index] in *. destruct (list_lookup_insert_Some [Mat_empty; Mat_empty] 1 l 1 (mkMat 1 1 [2%Z])) as [H _].
    destruct (H Hslot) as [(_ & -> & _)|[? _]]; [reflexivity|done].
Defined.

(** ** The score populations *)

Section Populations.
Context `{AR : Arith}.

Lemma flat_map_lengths {A B} (f g : A → list B) (h : A → nat) (l : list A) :
  (∀ x, x ∈ l → length (f x) + length (g x) = h x) →
  length (flat_map f l) + length (flat_map g l) = sum_list (map h l).
Proof.
  induction l as [|x l IH]; intros H; cbn [flat_map map]; [done|].
  change (sum_list (h x :: map h l)) with (h x + sum_list (map h l)).
  rewrite !length_app.
  pose proof (H x ltac:(constructor)).
  pose proof (IH (fun y Hy => H y ltac:(by constructor))).
  lia.
Qed.

Lemma sum_pairs_after (N len a : nat) :
  a + len = N →
  2 * sum_list (map (fun i => N - (i + 1)) (seq a len)) = len * (len - 1).
Proof.
  revert a. induction len as [|len IH]; intros a Ha; cbn [seq map]; [done|].
  change (sum_list (?x :: ?l)) with (x + sum_list l).
  specialize (IH (S a) ltac:(lia)). nia.
Qed.

Lemma sum_ones {A} (l : list A) : sum_list (map (fun _ => 1) l) = length l.
Proof.
  induction l as [|x l IH]; cbn [map length]; [done|].
  change (sum_list (?x :: ?l)) with (x + sum_list l). by rewrite IH.
Qed.

Lemma pair_score_once (tbl : nat → nat → float) indicies labels i j :
  i < length indicies → j < length indicies → length indicies ≤ length labels →
  length (pair_score tbl indicies labels true i j)
  + length (pair_score tbl indicies labels false i j) = 1.
Proof.
  intros Hi Hj Hl. unfold pair_score.
  destruct (lookup_lt_is_Some_2 indicies i) as [a ->]; [lia|].
  destruct (lookup_lt_is_Some_2 indicies j) as [b ->]; [lia|].
  destruct (lookup_lt_is_Some_2 labels i) as [li ->]; [lia|].
  destruct (lookup_lt_is_Some_2 labels j) as [lj ->]; [lia|].
  destruct (bool_decide (li = lj)); reflexivity.
Qed.

(** X15: the pair loop of the calibration puts the score of every pair
    [i < j] of samples into exactly one of the two populations: for [N]
    samples the genuine and the impostor scores are [N*(N-1)/2] together. *)
Theorem collect_scores_counts_pairs (tbl : nat → nat → float) indicies labels base buf :
  (∀ a b, a < 256 → b < 256 → buf !! (base + (a * 256 + b)) = Some (tbl a b)) →
  Forall (fun a => a < 256) indicies →
  length indicies ≤ length labels →
  ∃ genuineScores impostorScores,
    collect_scores indicies labels base buf = Ok (genuineScores, impostorScores)
    ∧ 2 * (length genuineScores + length impostorScores)
      = length indicies * (length indicies - 1).
Proof.
  intros Htbl Hind Hlab. eexists _, _.
  split; [by apply (collect_scores_spec tbl)|].
  unfold population.
  rewrite (flat_map_lengths _ _ (fun i => length indicies - (i + 1))).
  - by apply sum_pairs_after.
  - intros i Hi. apply elem_of_seq in Hi.
    rewrite (flat_map_lengths _ _ (fun _ => 1)).
    + by rewrite sum_ones, length_seq.
    + intros j Hj. apply elem_of_seq in Hj. apply pair_score_once; lia.
Qed.

End Populations.

Lemma collect_scores_counts_pairs_witness :
  ∃ g im,
    @collect_scores Sample.arith [3; 5; 3; 7] [0; 1; 0; 1]%Z 0
      (replicate (256 * 256) 9%Z) = Ok (g, im)
    ∧ 2 * (length g + length im) = 12.
Proof.
  apply (@collect_scores_counts_pairs Sample.arith (fun _ _ => 9%Z)).
  - intros a b Ha Hb. apply lookup_replicate_2. lia.
  - repeat constructor; lia.
  - cbn. lia.
Defined.

(** ** PackTransform and BinarizeTransform *)

Lemma cell_index_lt (R C i j : nat) : i < R → j < C → i * C + j < R * C.
Proof. intros Hi Hj. nia. Qed.

Lemma cell_index_inj (C i j i' j' : nat) :
  j < C → j' < C → i * C + j = i' * C + j' → i = i' ∧ j = j'.
Proof. intros Hj Hj' H. assert (i = i') by nia. subst. lia. Qed.

(** Two nested loops that write cell [(i, j)] of an [R] by [C] matrix
    at each step fill the matrix. *)
Lemma matrix_fill {A} (R C : nat) (v : nat → nat → A)
    (body : nat → nat → list A → outcome (list A)) (buf0 : list A) :
  length buf0 = R * C →
  (∀ i j buf, i < R → j < C → length buf = R * C →
     body i j buf = Ok (<[i * C + j := v i j]> buf)) →
  ∃ buf,
    forM (seq 0 R) (fun i buf => forM (seq 0 C) (fun j buf => body i j buf) buf) buf0 = Ok buf
    ∧ length buf = R * C
    ∧ ∀ i j, i < R → j < C → buf !! (i * C + j) = Some (v i j).
Proof.
  intros Hlen Hbody.
  destruct (forM_inv
    (fun i buf => length buf = R * C
       ∧ ∀ i' j', i' < i → j' < C → buf !! (i' * C + j') = Some (v i' j'))
    (fun i buf => forM (seq 0 C) (fun j buf => body i j buf) buf) R 0 buf0)
    as (buf & Hrun & Hl & Hin).
  - split; [done|]. intros; lia.
  - intros i buf Hi [Hl Hdone].
    destruct (forM_inv
      (fun j buf => length buf = R * C
         ∧ ∀ i' j', i' < R → j' < C → i' < i ∨ (i' = i ∧ j' < j) →
             buf !! (i' * C + j') = Some (v i' j'))
      (fun j buf => body i j buf) C 0 buf) as (buf1 & Hrun1 & Hl1 & Hin1).
    + split; [done|]. intros i' j' Hi' Hj' [H|H]; [by apply Hdone|lia].
    + intros j b Hj [Hlb Hb]. rewrite Hbody by (done || lia).
      eexists. split; [done|]. split; [by rewrite length_insert|].
      intros i' j' Hi' Hj' Hearlier.
      pose proof (cell_index_lt R C i j ltac:(lia) ltac:(lia)).
      destruct (decide (i' = i ∧ j' = j)) as [[-> ->]|Hne].
      * by rewrite list_lookup_insert_eq by lia.
      * rewrite list_lookup_insert_ne.
        -- apply Hb; [done..|]. lia.
        -- intros Heq. apply cell_index_inj in Heq as [<- <-]; [|lia..]. by apply Hne.
    + exists buf1. split; [exact Hrun1|]. split; [done|].
      intros i' j' Hi' Hj'. apply Hin1; [lia|done|]. lia.
  - exists buf. split; [exact Hrun|]. split; [done|].
    intros i j Hi Hj. apply Hin; lia.
Qed.

Section Pack.
Context `{AR : Arith}.

Lemma pack_nibbles (x y : byte) :
  (Byte.to_N (PackTransform.pack x y) / 16 = Byte.to_N x / 16
   ∧ Byte.to_N (PackTransform.pack x y) mod 16 = Byte.to_N y / 16)%N.
Proof.
  unfold PackTransform.pack. rewrite uchar_of_N_to_N.
  rewrite !N.shiftr_div_pow2, !N.shiftl_mul_pow2.
  change (2 ^ 4)%N with 16%N. change (2 ^ 0)%N with 1%N.
  pose proof (Byte.to_N_bounded x). pose proof (Byte.to_N_bounded y).
  split; zify; Z.to_euclidean_division_equations; lia.
Qed.

(** X16: on a [uchar] matrix with an even number of columns,
    [PackTransform] returns a matrix of the same number of rows and half
    the columns; the high half of each byte is the high half of the
    even-numbered input byte, its low half the high half of the
    odd-numbered one (the low halves of the input are dropped). *)
Theorem pack_keeps_high_halves (m : Mat byte) :
  cols m mod 2 = 0 →
  length (data m) = rows m * cols m →
  ∃ out,
    PackTransform.project (CV_8UC1 m) = Ok out
    ∧ rows out = rows m
    ∧ cols out = cols m / 2
    ∧ length (data out) = rows m * (cols m / 2)
    ∧ ∀ i j, i < rows m → j < cols m / 2 →
        ∃ x y b,
          data m !! (i * cols m + 2 * j) = Some x
          ∧ data m !! (i * cols m + (2 * j + 1)) = Some y
          ∧ data out !! (i * (cols m / 2) + j) = Some b
          ∧ (Byte.to_N b / 16 = Byte.to_N x / 16)%N
          ∧ (Byte.to_N b mod 16 = Byte.to_N y / 16)%N.
Proof.
  intros Heven Hlen. unfold PackTransform.project.
  rewrite decide_False by lia.
  pose proof (Nat.div_mod_eq (cols m) 2) as Hc.
  destruct (matrix_fill (rows m) (cols m / 2)
    (fun i j => PackTransform.pack
       (default "000"%byte (data m !! (i * cols m + (2 * j + 0))))
       (default "000"%byte (data m !! (i * cols m + (2 * j + 1)))))
    (fun i j buf =>
       x ← deref (data m !! (i * cols m + (2 * j + 0)));
       y ← deref (data m !! (i * cols m + (2 * j + 1)));
       write buf (i * (cols m / 2) + j) (PackTransform.pack x y))
    (replicate (rows m * (cols m / 2)) indeterminate_uchar))
    as (buf & Hrun & Hl & Hin).
  - by rewrite length_replicate.
  - intros i j buf Hi Hj Hl.
    destruct (lookup_lt_is_Some_2 (data m) (i * cols m + (2 * j + 0))) as [x Hx]; [nia|].
    destruct (lookup_lt_is_Some_2 (data m) (i * cols m + (2 * j + 1))) as [y Hy]; [nia|].
    rewrite Hx, Hy. cbn [deref mbind outcome_bind default from_option id].
    apply write_Ok. pose proof (cell_index_lt _ _ _ _ Hi Hj). lia.
  - rewrite Hrun. cbn [mbind outcome_bind]. eexists. split; [done|].
    cbn [rows cols data]. split; [done|]. split; [done|]. split; [done|].
    intros i j Hi Hj.
    destruct (lookup_lt_is_Some_2 (data m) (i * cols m + (2 * j + 0))) as [x Hx]; [nia|].
    destruct (lookup_lt_is_Some_2 (data m) (i * cols m + (2 * j + 1))) as [y Hy]; [nia|].
    exists x, y, (PackTransform.pack x y).
    replace (2 * j) with (2 * j + 0) by lia.
    split; [done|]. split; [by replace (2 * j + 0 + 1) with (2 * j + 1) by lia|].
    split; [by rewrite Hin, Hx, Hy by done|]. apply pack_nibbles.
Qed.

End Pack.

Lemma pack_keeps_high_halves_witness :
  ∃ out, @PackTransform.project Sample.arith
           (CV_8UC1 (mkMat 1 2 ["171"; "205"]%byte)) = Ok out
    ∧ cols out = 1.
Proof.
  destruct (@pack_keeps_high_halves Sample.arith (mkMat 1 2 ["171"; "205"]%byte))
    as (out & Hrun & _ & Hc & _); [reflexivity|reflexivity|].
  exists out. split; [exact Hrun|exact Hc].
Defined.

Example pack_ab_cd :
  @PackTransform.project Sample.arith (CV_8UC1 (mkMat 1 2 ["171"; "205"]%byte))
  = Ok (mkMat 1 1 ["172"%byte]).
Proof. by vm_compute. Qed.

Section Binarize.
Context `{AR : Arith} `{PS : !Positive}.

Lemma bits_testbit (b0 b1 b2 b3 b4 b5 b6 b7 : bool) :
  N.testbit (Byte.to_N (BinarizeTransform.bits b0 b1 b2 b3 b4 b5 b6 b7)) 0 = b0
  ∧ N.testbit (Byte.to_N (BinarizeTransform.bits b0 b1 b2 b3 b4 b5 b6 b7)) 1 = b1
  ∧ N.testbit (Byte.to_N (BinarizeTransform.bits b0 b1 b2 b3 b4 b5 b6 b7)) 2 = b2
  ∧ N.testbit (Byte.to_N (BinarizeTransform.bits b0 b1 b2 b3 b4 b5 b6 b7)) 3 = b3
  ∧ N.testbit (Byte.to_N (BinarizeTransform.bits b0 b1 b2 b3 b4 b5 b6 b7)) 4 = b4
  ∧ N.testbit (Byte.to_N (BinarizeTransform.bits b0 b1 b2 b3 b4 b5 b6 b7)) 5 = b5
  ∧ N.testbit (Byte.to_N (BinarizeTransform.bits b0 b1 b2 b3 b4 b5 b6 b7)) 6 = b6
  ∧ N.testbit (Byte.to_N (BinarizeTransform.bits b0 b1 b2 b3 b4 b5 b6 b7)) 7 = b7.
Proof.
  destruct b0, b1, b2, b3, b4, b5, b6, b7; vm_compute; repeat split.
Qed.

(** A loop that writes cell [i] of an array at step [i] fills the array. *)
Lemma array_fill {A} (R : nat) (v : nat → A) (body : nat → list A → outcome (list A))
    (buf0 : list A) :
  length buf0 = R →
  (∀ i buf, i < R → length buf = R → body i buf = Ok (<[i := v i]> buf)) →
  ∃ buf, forM (seq 0 R) body buf0 = Ok buf
    ∧ length buf = R
    ∧ ∀ i, i < R → buf !! i = Some (v i).
Proof.
  intros Hlen Hbody.
  destruct (forM_inv
    (fun i buf => length buf = R ∧ ∀ i', i' < i → buf !! i' = Some (v i'))
    body R 0 buf0) as (buf & Hrun & Hl & Hin).
  - split; [done|]. intros; lia.
  - intros i buf Hi [Hl Hdone]. rewrite Hbody by (done || lia).
    eexists. split; [done|]. split; [by rewrite length_insert|].
    intros i' Hi'. destruct (decide (i' = i)) as [->|Hne].
    + by rewrite list_lookup_insert_eq by lia.
    + rewrite list_lookup_insert_ne by lia. apply Hdone. lia.
  - exists buf. split; [exact Hrun|]. split; [done|]. intros i Hi. apply Hin. lia.
Qed.

(** X17: on a [float] matrix with 8 columns, [BinarizeTransform]
    returns one byte per row, and bit [k] of the byte of a row is set
    exactly when element [k] of the row is above zero. *)
Theorem binarize_eight_columns (m : Mat float) :
  cols m = 8 →
  length (data m) = rows m * 8 →
  ∃ out,
    BinarizeTransform.project (CV_32FC1 m) = Ok out
    ∧ rows out = rows m
    ∧ cols out = 1
    ∧ ∀ i, i < rows m →
        ∃ b, data out !! i = Some b
          ∧ ∀ k, k < 8 →
              ∃ v, data m !! (i * 8 + k) = Some v
                ∧ N.testbit (Byte.to_N b) (N.of_nat k) = fpos v.
Proof.
  intros Hc Hlen. unfold BinarizeTransform.project. rewrite Hc.
  rewrite decide_False by (intros H; by apply H).
  change (8 / 8) with 1. cbn [seq map]. change (8 * 0) with 0.
  set (cell := fun i t => default indeterminate (data m !! (i * 8 + t))).
  destruct (array_fill (rows m)
    (fun i => BinarizeTransform.bits
       (fpos (cell i 0)) (fpos (cell i 1)) (fpos (cell i 2)) (fpos (cell i 3))
       (fpos (cell i 4)) (fpos (cell i 5)) (fpos (cell i 6)) (fpos (cell i 7)))
    (fun i buf => forM [0] (fun j buf =>
       v0 ← deref (data m !! (i * 8 + (j + 0)));
       v1 ← deref (data m !! (i * 8 + (j + 1)));
       v2 ← deref (data m !! (i * 8 + (j + 2)));
       v3 ← deref (data m !! (i * 8 + (j + 3)));
       v4 ← deref (data m !! (i * 8 + (j + 4)));
       v5 ← deref (data m !! (i * 8 + (j + 5)));
       v6 ← deref (data m !! (i * 8 + (j + 6)));
       v7 ← deref (data m !! (i * 8 + (j + 7)));
       write buf (i * 1 + j)
         (BinarizeTransform.bits (fpos v0) (fpos v1) (fpos v2) (fpos v3)
            (fpos v4) (fpos v5) (fpos v6) (fpos v7))) buf)
    (replicate (rows m * 1) indeterminate_uchar))
    as (buf & Hrun & Hl & Hin).
  - rewrite length_replicate. lia.
  - intros i buf Hi Hl. cbn [forM]. cbn [Nat.add]. unfold cell.
    destruct (lookup_lt_is_Some_2 (data m) (i * 8 + 0)) as [v0 ->]; [lia|].
    destruct (lookup_lt_is_Some_2 (data m) (i * 8 + 1)) as [v1 ->]; [lia|].
    destruct (lookup_lt_is_Some_2 (data m) (i * 8 + 2)) as [v2 ->]; [lia|].
    destruct (lookup_lt_is_Some_2 (data m) (i * 8 + 3)) as [v3 ->]; [lia|].
    destruct (lookup_lt_is_Some_2 (data m) (i * 8 + 4)) as [v4 ->]; [lia|].
    destruct (lookup_lt_is_Some_2 (data m) (i * 8 + 5)) as [v5 ->]; [lia|].
    destruct (lookup_lt_is_Some_2 (data m) (i * 8 + 6)) as [v6 ->]; [lia|].
    destruct (lookup_lt_is_Some_2 (data m) (i * 8 + 7)) as [v7 ->]; [lia|].
    cbn [deref mbind outcome_bind default from_option id].
    rewrite write_Ok by lia. cbn [mbind outcome_bind].
    by replace (i * 1 + 0) with i by lia.
  - rewrite Hrun. cbn [mbind outcome_bind]. eexists. split; [done|].
    cbn [rows cols data]. split; [done|]. split; [done|].
    intros i Hi. eexists. split; [by apply Hin|].
    destruct (bits_testbit
      (fpos (cell i 0)) (fpos (cell i 1)) (fpos (cell i 2)) (fpos (cell i 3))
      (fpos (cell i 4)) (fpos (cell i 5)) (fpos (cell i 6)) (fpos (cell i 7)))
      as (H0 & H1 & H2 & H3 & H4 & H5 & H6 & H7).
    intros k Hk.
    destruct (lookup_lt_is_Some_2 (data m) (i * 8 + k)) as [v Hv]; [lia|].
    exists v. split; [done|].
    assert (Hcell : cell i k = v) by (unfold cell; by rewrite Hv).
    rewrite <- Hcell.
    destruct k as [|[|[|[|[|[|[|[|]]]]]]]]; [done..|lia].
Qed.

Lemma binarize_returns_or_undefined (m : Mat float) :
  cols m mod 8 = 0 → returns_or_undefined (BinarizeTransform.project (CV_32FC1 m)).
Proof.
  intros Hc. unfold BinarizeTransform.project. rewrite decide_False by lia.
  apply bind_returns_or_undefined; [|right; by eexists].
  apply forM_returns_or_undefined. intros i buf.
  apply forM_returns_or_undefined. intros j buf'.
  repeat (apply bind_returns_or_undefined; [apply deref_returns_or_undefined|]; intros ?).
  apply write_returns_or_undefined.
Qed.

(** X18: on a [float] matrix with at least one row and 16 or more
    columns (a multiple of 8), [BinarizeTransform] writes outside the
    matrix it allocated: the byte of the columns [8*t .. 8*t+7] goes to
    column [8*t] of a row that has [cols/8] bytes. *)
Theorem binarize_wide_undefined (m : Mat float) :
  cols m mod 8 = 0 →
  16 ≤ cols m →
  0 < rows m →
  BinarizeTransform.project (CV_32FC1 m) = Undefined.
Proof.
  intros Hc Hwide Hrows.
  apply not_returns_undefined; [by apply binarize_returns_or_undefined|].
  unfold BinarizeTransform.project. rewrite decide_False by lia.
  pose proof (Nat.div_mod_eq (cols m) 8) as Hdiv.
  set (nc := cols m / 8) in *.
  assert (Hlen : ∀ i j (s s' : list byte),
    (v0 ← deref (data m !! (i * cols m + (j + 0)));
     v1 ← deref (data m !! (i * cols m + (j + 1)));
     v2 ← deref (data m !! (i * cols m + (j + 2)));
     v3 ← deref (data m !! (i * cols m + (j + 3)));
     v4 ← deref (data m !! (i * cols m + (j + 4)));
     v5 ← deref (data m !! (i * cols m + (j + 5)));
     v6 ← deref (data m !! (i * cols m + (j + 6)));
     v7 ← deref (data m !! (i * cols m + (j + 7)));
     write s (i * nc + j)
       (BinarizeTransform.bits (fpos v0) (fpos v1) (fpos v2) (fpos v3)
          (fpos v4) (fpos v5) (fpos v6) (fpos v7))) = Ok s' →
    length s' = length s ∧ i * nc + j < length s).
  { intros i j s s'.
    repeat match goal with
           | |- context [deref ?o] =>
               destruct o; cbn [deref mbind outcome_bind]; [|discriminate]
           end.
    unfold write. case_decide; [|discriminate]. intros [= <-].
    split; [by rewrite length_insert|done]. }
  intros [out Hout].
  destruct (forM _ _ _) as [buf| | |] eqn:E; cbn [mbind outcome_bind] in Hout;
    try discriminate.
  eapply (forM_fails (fun s => length s = rows m * nc) _ _ (rows m - 1));
    [by rewrite length_replicate| | | |by eexists].
  - intros i s s' _ Hs Hrun. rewrite <- Hs. revert Hrun.
    apply (forM_preserves (fun a b : list byte => length b = length a)); [done|congruence|].
    intros j s1 s2 _ H. by apply Hlen in H as [-> _].
  - apply elem_of_seq. lia.
  - intros s Hs.
    eapply (forM_fails (fun s => length s = rows m * nc) _ _ (8 * (nc - 1))); [done| | |].
    + intros j s1 s2 _ Hs1 H. apply Hlen in H as [-> _]. done.
    + apply list_elem_of_In, in_map_iff. exists (nc - 1). split; [done|].
      apply in_seq. lia.
    + intros s1 Hs1 [s2 H]. apply Hlen in H as [_ H]. nia.
Qed.

End Binarize.

Lemma binarize_eight_columns_witness :
  ∃ out, @BinarizeTransform.project Sample.arith sample_positive
           (@CV_32FC1 Sample.arith (mkMat 1 8 [1; -1; 0; 5; 0; 0; 2; -3]%Z)) = Ok out
    ∧ cols out = 1.
Proof.
  destruct (@binarize_eight_columns Sample.arith sample_positive
              (mkMat 1 8 [1; -1; 0; 5; 0; 0; 2; -3]%Z))
    as (out & Hrun & _ & Hc & _); [reflexivity|reflexivity|].
  exists out. split; [exact Hrun|exact Hc].
Defined.

Example binarize_sample :
  @BinarizeTransform.project Sample.arith sample_positive
    (@CV_32FC1 Sample.arith (mkMat 1 8 [1; -1; 0; 5; 0; 0; 2; -3]%Z))
  = Ok (mkMat 1 1 ["073"%byte]).
Proof. by vm_compute. Qed.

Lemma binarize_wide_undefined_witness :
  @BinarizeTransform.project Sample.arith sample_positive
    (@CV_32FC1 Sample.arith (mkMat 1 16 (replicate 16 1%Z))) = Undefined.
Proof.
  apply (@binarize_wide_undefined Sample.arith sample_positive).
  - reflexivity.
  - cbn [cols]. lia.
  - cbn [rows]. lia.
Defined.

Section Formats.
Context `{AR : Arith} `{PS : !Positive}.

Lemma pack_returns_or_undefined (m : Mat byte) :
  cols m mod 2 = 0 → returns_or_undefined (PackTransform.project (CV_8UC1 m)).
Proof.
  intros Hc. unfold PackTransform.project. rewrite decide_False by lia.
  apply bind_returns_or_undefined; [|right; by eexists].
  apply forM_returns_or_undefined. intros i buf.
  apply forM_returns_or_undefined. intros j buf'.
  repeat (apply bind_returns_or_undefined; [apply deref_returns_or_undefined|]; intros ?).
  apply write_returns_or_undefined.
Qed.

Lemma returns_or_undefined_not_Fatal {A} (o : outcome A) msg :
  returns_or_undefined o → o ≠ Fatal msg.
Proof. intros [->|[a ->]]; discriminate. Qed.

(** X19: the format test at their head is the only diagnostic of the two
    transforms.  [PackTransform] aborts exactly on an input that is not
    a [uchar] matrix with an even number of columns, [BinarizeTransform]
    exactly on one that is not a [float] matrix with a multiple of 8
    columns; on every other input they return or run into undefined
    behaviour. *)
Theorem format_checks (src : Matrix) (msg : string) :
  (PackTransform.project src = Fatal msg
   ↔ msg = "Invalid template format."%string
     ∧ ¬ ∃ m, src = CV_8UC1 m ∧ cols m mod 2 = 0)
  ∧ (BinarizeTransform.project src = Fatal msg
     ↔ msg = "Expected CV_32FC1 matrix with a multiple of 8 columns."%string
       ∧ ¬ ∃ m, src = CV_32FC1 m ∧ cols m mod 8 = 0).
Proof.
  split; split.
  - destruct src as [m|m|r c]; cbn [PackTransform.project].
    + case_decide as Hc.
      * intros [= <-]. split; [done|]. intros (m' & [= <-] & H). done.
      * intros H. exfalso. revert H. apply returns_or_undefined_not_Fatal.
        pose proof (pack_returns_or_undefined m ltac:(lia)) as Hr.
        unfold PackTransform.project in Hr. by rewrite decide_False in Hr by lia.
    + intros [= <-]. split; [done|]. by intros (m' & [=] & _).
    + intros [= <-]. split; [done|]. by intros (m' & [=] & _).
  - intros [-> Hno]. destruct src as [m|m|r c]; cbn [PackTransform.project]; [|done..].
    case_decide as Hc; [done|]. exfalso. apply Hno. exists m. split; [done|lia].
  - destruct src as [m|m|r c]; cbn [BinarizeTransform.project].
    + intros [= <-]. split; [done|]. by intros (m' & [=] & _).
    + case_decide as Hc.
      * intros [= <-]. split; [done|]. intros (m' & [= <-] & H). done.
      * intros H. exfalso. revert H. apply returns_or_undefined_not_Fatal.
        pose proof (binarize_returns_or_undefined m ltac:(lia)) as Hr.
        unfold BinarizeTransform.project in Hr. by rewrite decide_False in Hr by lia.
    + intros [= <-]. split; [done|]. by intros (m' & [=] & _).
  - intros [-> Hno]. destruct src as [m|m|r c]; cbn [BinarizeTransform.project]; [done| |done].
    case_decide as Hc; [done|]. exfalso. apply Hno. exists m. split; [done|lia].
Qed.

End Formats.

Lemma format_checks_witness :
  @PackTransform.project Sample.arith (CV_8UC1 (mkMat 1 3 ["001"; "002"; "003"]%byte))
  = Fatal "Invalid template format."
  ∧ @BinarizeTransform.project Sample.arith sample_positive
      (CV_8UC1 (mkMat 1 8 (replicate 8 "001"%byte)))
    = Fatal "Expected CV_32FC1 matrix with a multiple of 8 columns.".
Proof.
  split.
  - apply (@format_checks Sample.arith sample_positive). split; [done|].
    intros (m & [= <-] & H). discriminate.
  - apply (@format_checks Sample.arith sample_positive). split; [done|].
    by intros (m & [=] & _).
Defined.

(** ** Labels without calibration *)

(** X20: without calibration the class labels play no part in training:
    any two lists of labels, of any length, give the same outcome. *)
Theorem train_raw_ignores_labels `{AR : Arith} `{CV : !OpenCV} `{CM : !Common}
    (q : ProductQuantizationTransform) (LUTs : list (Mat float)) (X : Mat float)
    (labels labels' : list Z) :
  bayesian q = false →
  train q LUTs X labels = train q LUTs X labels'.
Proof.
  intros Hb. unfold train. repeat case_decide; try done.
  f_equal. unfold train_loop. apply forM_ext. intros i [buf cs] _.
  f_equal. unfold _train. rewrite Hb. reflexivity.
Qed.

Lemma train_raw_ignores_labels_witness :
  @train Sample.arith Sample.opencv Sample.common
    Sample.fresh.1 Sample.fresh.2 Sample.samples Sample.two_classes
  = @train Sample.arith Sample.opencv Sample.common
      Sample.fresh.1 Sample.fresh.2 Sample.samples [].
Proof.
  apply (@train_raw_ignores_labels Sample.arith Sample.opencv Sample.common).
  reflexivity.
Defined.
